(** * A weighted max-heap load balancer: model of [main.go] and its properties

    The development embeds the node pool of the load balancer, its heap
    repair ([Heapify]), the health update ([SetProps], [SetNodeStatus],
    [HealthCheck]) and the request dispatcher ([loadBalancer] together with
    the proxy's [ErrorHandler]) as executable Rocq functions, and settles the
    properties stated about them.

    Modelling choices, all read off the source:
    - [np.nodes] is a slice of pointers [[]*Node]; the pool is therefore a
      list of addresses into a memory of [Node] cells, so that a swap moves
      an address and a weight update is seen through every alias;
    - indices are [uint64]: [2*idx+1] and [2*idx+2] wrap modulo [2^64];
    - a slice access out of range and a nil dereference panic: functions
      return an [outcome], which is [Done], [Panic] or [OutOfFuel];
    - [weight] is a [float64] in the source; it is modelled by an exact
      rational ([Qc]), so that halving, doubling and dividing by three are
      the exact operations (rounding and underflow are outside the model);
    - the backends and the network are external: an oracle says whether the
      k-th forwarding attempt succeeds, and the run records what the
      dispatcher does in a log of events. *)

From stdpp Require Import base numbers list gmap strings.
From Stdlib Require Import QArith Qcanon.

Local Open Scope Qc_scope.

(** ** Results of running a Go function *)

Inductive outcome (A : Type) : Type :=
| Done (a : A)
| Panic
| OutOfFuel.
Arguments Done {A} a.
Arguments Panic {A}.
Arguments OutOfFuel {A}.

Definition bind {A B : Type} (m : outcome A) (f : A -> outcome B) : outcome B :=
  match m with
  | Done a => f a
  | Panic => Panic
  | OutOfFuel => OutOfFuel
  end.

Notation "x <- m ;; k" := (bind m (fun x => k))
  (at level 100, m at next level, right associativity).

(** ** Data model *)

(** [type Node struct { URL; Active; weight; mutex; ReverseProxy }].  The
    mutex has no content in a sequential model; the reverse proxy of a node
    is the one built for its URL, so the URL stands for it. *)
Record Node : Type := mkNode {
  URL : string;
  Active : bool;
  weight : Qc
}.

(** A [*Node].  Address [0] is the nil pointer and is never allocated. *)
Definition ptr : Type := nat.
Definition nil_ptr : ptr := 0%nat.

(** The global [nodePool] and the memory its pointers point into.  The
    counter [current] of [NodePool] is only used by [NextIdx], which no
    other function calls, and is left out. *)
Record state : Type := State {
  mem : gmap ptr Node;
  nodes : list ptr
}.

Definition set_mem (m : gmap ptr Node) (s : state) : state :=
  State m (nodes s).
Definition set_nodes (l : list ptr) (s : state) : state :=
  State (mem s) l.

Definition set_weight (w : Qc) (n : Node) : Node :=
  mkNode (URL n) (Active n) w.

(** [uint64] arithmetic. *)
Definition wrap64 (x : N) : N := (x mod 2 ^ 64)%N.

(** [uint64(len(np.nodes))] *)
Definition len (s : state) : N := N.of_nat (length (nodes s)).

(** [np.nodes[i]]: panics when [i] is out of range. *)
Definition node_at (s : state) (i : N) : outcome ptr :=
  match nodes s !! N.to_nat i with
  | Some p => Done p
  | None => Panic
  end.

(** [*p]: panics on nil (and on an address that was never allocated). *)
Definition deref (m : gmap ptr Node) (p : ptr) : outcome Node :=
  match m !! p with
  | Some n => Done n
  | None => Panic
  end.

(** [func (np *NodePool) AddNode(n *Node)] *)
Definition AddNode (n : ptr) (s : state) : state :=
  set_nodes (nodes s ++ [n]) s.

(** [int(x)] for a [uint64] [x], where [int] has 64 bits. *)
Definition to_int (x : N) : Z :=
  if (x <? 2 ^ 63)%N then Z.of_N x else (Z.of_N x - 2 ^ 64)%Z.

(** [func (np *NodePool) NextIdx() int].  [current] is the counter of the
    pool when the call starts; the call returns the counter it leaves and
    the index.  [atomic.AddUint64] wraps around, and [x % 0] panics. *)
Definition NextIdx (current : N) (s : state) : outcome (N * Z) :=
  let current := wrap64 (current + 1) in
  if (len s =? 0)%N then Panic
  else Done (current, to_int (current mod len s)).

(** [func (n *Node) isActive() bool] *)
Definition isActive (s : state) (n : ptr) : outcome bool :=
  c <- deref (mem s) n;; Done (Active c).

(** [func (n *Node) getWeight() float64] *)
Definition getWeight (s : state) (n : ptr) : outcome Qc :=
  c <- deref (mem s) n;; Done (weight c).

(** [func (np *NodePool) Swap(i uint64, j uint64)] *)
Definition Swap (i j : N) (s : state) : outcome state :=
  temp <- node_at s i;;
  pj <- node_at s j;;
  let s1 := set_nodes (<[N.to_nat i := pj]> (nodes s)) s in
  check <- node_at s1 j;;
  Done (set_nodes (<[N.to_nat j := temp]> (nodes s1)) s1).

(** [np.nodes[idx].weight = f(np.nodes[idx].weight)] *)
Definition update_weight (f : Qc -> Qc) (idx : N) (s : state) : outcome state :=
  p <- node_at s idx;;
  c <- deref (mem s) p;;
  Done (set_mem (<[p := set_weight (f (weight c)) c]> (mem s)) s).

(** [child < uint64(len(np.nodes)) && np.nodes[child].isActive() &&
     np.nodes[child].getWeight() > np.nodes[largest].getWeight()],
    evaluated left to right with Go's short-circuit. *)
Definition child_wins (s : state) (child largest : N) : outcome bool :=
  if (child <? len s)%N then
    c <- node_at s child;;
    a <- isActive s c;;
    if a then
      wc <- getWeight s c;;
      l <- node_at s largest;;
      wl <- getWeight s l;;
      Done (bool_decide (wl < wc))
    else Done false
  else Done false.

(** [child < uint64(len(np.nodes)) && np.nodes[child].getWeight() < 1] *)
Definition low_weight (s : state) (child : N) : outcome bool :=
  if (child <? len s)%N then
    c <- node_at s child;;
    wc <- getWeight s c;;
    Done (bool_decide (wc < 1))
  else Done false.

(** [func (np *NodePool) Heapify(idx uint64, root bool)].  The recursion of
    the source is bounded here by [fuel]; [Heapify] below supplies enough. *)
Fixpoint Heapify_rec (fuel : nat) (idx : N) (root : bool) (s : state) : outcome state :=
  match fuel with
  | O => OutOfFuel
  | S fuel =>
    let largest := idx in
    let left := wrap64 (2 * idx + 1) in
    let right := wrap64 (2 * idx + 2) in
    s <- (if root then update_weight (fun w => w / 2) idx s else Done s);;
    b <- child_wins s left largest;;
    let largest := if b then left else largest in
    b <- child_wins s right largest;;
    let largest := if b then right else largest in
    s <- (if bool_decide (largest ≠ idx) then
           s <- (if root then update_weight (fun w => w * 2) idx s else Done s);;
           s <- Swap largest idx s;;
           Heapify_rec fuel largest false s
         else Done s);;
    b <- low_weight s left;;
    s <- (if b then Heapify_rec fuel left false s else Done s);;
    b <- low_weight s right;;
    s <- (if b then Heapify_rec fuel right false s else Done s);;
    Done s
  end.

Definition Heapify (idx : N) (root : bool) (s : state) : outcome state :=
  Heapify_rec (S (length (nodes s))) idx root s.

(** [func (np *NodePool) NextNode() *Node] *)
Definition NextNode (s : state) : outcome ptr :=
  node_at s 0.

(** [func (n *Node) SetProps(status bool)] *)
Definition SetProps (n : ptr) (status : bool) (m : gmap ptr Node) : outcome (gmap ptr Node) :=
  c <- deref m n;;
  let c := mkNode (URL c) status (weight c) in
  let c :=
    if negb status then set_weight (weight c / Q2Qc 3) c
    else if bool_decide (weight c < 1) then set_weight (weight c * 2) c
    else c in
  Done (<[n := c]> m).

(** [func (np *NodePool) SetNodeStatus(url *url.URL, status bool)]: the loop
    over [np.nodes], stopping at the first node whose URL matches. *)
Fixpoint SetNodeStatus_loop (l : list ptr) (url : string) (status : bool)
    (m : gmap ptr Node) : outcome (gmap ptr Node) :=
  match l with
  | [] => Done m
  | n :: l =>
    c <- deref m n;;
    if bool_decide (URL c = url) then SetProps n status m
    else SetNodeStatus_loop l url status m
  end.

Definition SetNodeStatus (url : string) (status : bool) (s : state) : outcome state :=
  m <- SetNodeStatus_loop (nodes s) url status (mem s);;
  Done (set_mem m s).

(** [func (np *NodePool) HealthCheck()].  [n.Status()] dials the backend;
    its answer is given by [probe] on the node's URL.  The [range] loop fixes
    the number of iterations when it starts and reads [np.nodes[i]] when
    iteration [i] begins, after the swaps of the earlier ones. *)
Fixpoint HealthCheck_loop (probe : string -> bool) (todo : nat) (i : N)
    (s : state) : outcome state :=
  match todo with
  | O => Done s
  | S todo =>
    n <- node_at s i;;
    c <- deref (mem s) n;;
    let status := probe (URL c) in
    m <- SetProps n status (mem s);;
    let s := set_mem m s in
    s <- (if negb status then Heapify i false s else Done s);;
    HealthCheck_loop probe todo (i + 1) s
  end.

Definition HealthCheck (probe : string -> bool) (s : state) : outcome state :=
  HealthCheck_loop probe (length (nodes s)) 0 s.

(** ** The dispatcher *)

(** The two values a request carries in its context, each set or absent. *)
Record request : Type := Request {
  ctxAttempts : option Z;
  ctxRetry : option Z
}.

(** A request as the HTTP server hands it to the handler. *)
Definition fresh : request := Request None None.

(** [func GetAttemptsFromContext(r *http.Request) int] *)
Definition GetAttemptsFromContext (r : request) : Z :=
  match ctxAttempts r with
  | Some attempts => attempts
  | None => 1
  end.

(** [func GetRetryFromContext(r *http.Request) int] *)
Definition GetRetryFromContext (r : request) : Z :=
  match ctxRetry r with
  | Some retry => retry
  | None => 0
  end.

(** [request.WithContext(context.WithValue(request.Context(), key, v))] *)
Definition WithAttempts (v : Z) (r : request) : request :=
  Request (Some v) (ctxRetry r).
Definition WithRetry (v : Z) (r : request) : request :=
  Request (ctxAttempts r) (Some v).

(** What a run of the dispatcher does, in order. *)
Inductive event : Type :=
| Forward (url : string) (ok : bool)      (* the proxy for [url] forwards the request *)
| Sleep (ms : Z)                          (* [<-time.After(ms * time.Millisecond)] *)
| HttpError (body : string) (code : Z)    (* [http.Error(w, body, code)] *)
| LogAttempt (attempts : Z)               (* ["Attempting retry %d"] *)
| CallSetNodeStatus (url : string) (status : bool)
| CallHeapify (idx : N) (root : bool).

#[global] Instance event_eq_dec : EqDecision event.
Proof. solve_decision. Defined.

Definition StatusServiceUnavailable : Z := 503.

(** The pool, the events so far and the number of forwarding attempts made. *)
Record run : Type := Run {
  pool : state;
  log : list event;
  sent : nat
}.

Definition emit (e : event) (r : run) : run :=
  Run (pool r) (log r ++ [e]) (sent r).

(** [nodePool.Heapify(idx, root)] *)
Definition call_Heapify (idx : N) (root : bool) (r : run) : outcome run :=
  s <- Heapify idx root (pool r);;
  Done (Run s (log r ++ [CallHeapify idx root]) (sent r)).

(** [nodePool.SetNodeStatus(url, status)] *)
Definition call_SetNodeStatus (url : string) (status : bool) (r : run) : outcome run :=
  s <- SetNodeStatus url status (pool r);;
  Done (Run s (log r ++ [CallSetNodeStatus url status]) (sent r)).

Section Dispatch.

(** [backend k url]: does forwarding attempt number [k] of the run, made to
    [url], succeed? *)
Variable backend : nat -> string -> bool.

(** [proxy.ErrorHandler = func(w, request, e)], the closure built in [main]
    for the node [nodeURLParsed]; [ServeHTTP] is [proxy.ServeHTTP] of that
    same proxy.  The additions are on small [int]s and cannot overflow:
    [retries < 3], and [attempts <= 3] since [loadBalancer] let the request
    through. *)
Definition ErrorHandler
    (ServeHTTP : string -> request -> run -> outcome run)
    (loadBalancer : request -> run -> outcome run)
    (nodeURLParsed : string) (r : request) (st : run) : outcome run :=
  let retries := GetRetryFromContext r in
  if (retries <? 3)%Z then
    let st := emit (Sleep 10) st in
    let ctx := WithRetry (retries + 1) r in
    ServeHTTP nodeURLParsed ctx st
  else
    let attempts := GetAttemptsFromContext r in
    let st := emit (LogAttempt attempts) st in
    let ctx := WithAttempts (attempts + 1) r in
    st <- (if (3 <=? attempts)%Z
           then call_SetNodeStatus nodeURLParsed false st
           else Done st);;
    loadBalancer ctx st.

(** [func loadBalancer(w http.ResponseWriter, r *http.Request)] and
    [node.ReverseProxy.ServeHTTP(w, r)], which calls the error handler when
    the forwarding fails. *)
Fixpoint loadBalancer (fuel : nat) (r : request) (st : run) : outcome run :=
  match fuel with
  | O => OutOfFuel
  | S fuel =>
    let attempts := GetAttemptsFromContext r in
    if (3 <? attempts)%Z then
      Done (emit (HttpError "Service not available" StatusServiceUnavailable) st)
    else
      node <- NextNode (pool st);;
      if bool_decide (node ≠ nil_ptr) then
        c <- deref (mem (pool st)) node;;
        st <- ServeHTTP fuel (URL c) r st;;
        call_Heapify 0 true st
      else
        Done (emit (HttpError "Downtime: No nodes available" StatusServiceUnavailable) st)
  end
with ServeHTTP (fuel : nat) (target : string) (r : request) (st : run) : outcome run :=
  match fuel with
  | O => OutOfFuel
  | S fuel =>
    let ok := backend (sent st) target in
    let st := Run (pool st) (log st ++ [Forward target ok]) (S (sent st)) in
    if ok then Done st
    else ErrorHandler (ServeHTTP fuel) (loadBalancer fuel) target r st
  end.

(** Enough fuel for a request whose counters are [attempts] and [retries]. *)
Definition enough (r : request) : nat :=
  (2 * Z.to_nat (4 - GetAttemptsFromContext r) + Z.to_nat (3 - GetRetryFromContext r) + 2)%nat.

(** The handler as the server runs it on a request. *)
Definition handle (r : request) (s : state) : outcome run :=
  loadBalancer (enough r) r (Run s [] 0).

End Dispatch.

(** ** The pool [main] sets up *)

(** The loop of [main] over the configured URLs: each backend gets a new
    [Node] with weight 1, active, appended with [AddNode].  New cells are
    allocated at addresses 1, 2, ... *)
Definition main_nodes (urls : list string) : state :=
  fold_left
    (fun s nodeURL =>
       let n := S (length (nodes s)) in
       AddNode n (set_mem (<[n := mkNode nodeURL true 1]> (mem s)) s))
    urls (State ∅ []).

Definition pool1 : state := main_nodes ["http://a"].
Definition pool2 : state := main_nodes ["http://a"; "http://b"].
Definition pool3 : state := main_nodes ["http://a"; "http://b"; "http://c"].

(** A pool given cell by cell, at addresses 1, 2, ... *)
Definition pool_of (cells : list Node) : state :=
  State (list_to_map (zip (seq 1 (length cells)) cells)) (seq 1 (length cells)).

(** The nodes of the pool, in heap order. *)
Definition contents (s : state) : list (option Node) :=
  map (fun p => mem s !! p) (nodes s).

(** URL, activity and weight as a fraction, in heap order. *)
Definition view (s : state) : list (option (string * bool * Q)) :=
  map (fun o => match o with
                | Some n => Some (URL n, Active n, this (weight n))
                | None => None
                end) (contents s).

(** ** Vocabulary of the properties *)

(** Pointers of the pool point to allocated cells, and nil is not one. *)
Definition wf (s : state) : Prop :=
  Forall (fun p => p ∈ dom (mem s)) (nodes s) /\ nil_ptr ∉ dom (mem s).

#[global] Instance wf_dec (s : state) : Decision (wf s).
Proof. unfold wf. apply _. Defined.

(** Well-formed, not empty, of a length a Go slice can have. *)
Definition good (s : state) : Prop :=
  wf s /\ (0 < len s)%N /\ (len s < 2 ^ 63)%N.

#[global] Instance good_dec (s : state) : Decision (good s).
Proof. unfold good. apply _. Defined.

(** The node stored at position [i] of the pool. *)
Definition cell (s : state) (i : N) : option Node :=
  match nodes s !! N.to_nat i with
  | Some p => mem s !! p
  | None => None
  end.

(** [dominates s i]: the node at position [i] weighs at least as much as each
    of its active children.  It is what the two comparisons of [Heapify]
    test. *)
Definition dominates (s : state) (i : N) : Prop :=
  forall c n nc,
    (c = 2 * i + 1 \/ c = 2 * i + 2)%N ->
    cell s i = Some n -> cell s c = Some nc -> Active nc = true ->
    weight nc <= weight n.

(** The state in which the comparisons of a call take place: the node at
    [idx] halved when the call is a root call. *)
Definition compared (root : bool) (p : ptr) (n : Node) (s : state) : state :=
  if root then set_mem (<[p := set_weight (weight n / 2) n]> (mem s)) s else s.

(** Every active node weighs at least as much as each of its active
    children. *)
Definition heap_ordered (s : state) : Prop :=
  forall i n, cell s i = Some n -> Active n = true -> dominates s i.

(** Every weight is positive: so it is when [main] has set the pool up, and
    no function makes a positive weight zero or negative. *)
Definition positive (m : gmap ptr Node) : Prop :=
  forall p c, m !! p = Some c -> 0 < weight c.

(** [below a j]: position [j] is in the subtree rooted at position [a]. *)
Inductive below (a : N) : N -> Prop :=
| below_here : below a a
| below_left (j : N) : below a j -> below a (2 * j + 1)
| below_right (j : N) : below a j -> below a (2 * j + 2).


(** Fuel a call of [loadBalancer] needs for request [r]; [ServeHTTP] needs
    one less. *)
Definition need (r : request) : nat :=
  (2 * Z.to_nat (4 - GetAttemptsFromContext r)
   + Z.to_nat (3 - GetRetryFromContext r) + 1)%nat.

(** [refines o o']: [o'] is [o], or [o] ran out of fuel. *)
Definition refines {A : Type} (o o' : outcome A) : Prop :=
  o = OutOfFuel \/ o = o'.

(** Every node of the pool is active and weighs [w]. *)
Definition uniform (w : Qc) (s : state) : Prop :=
  forall i n, cell s i = Some n -> weight n = w /\ Active n = true.

(** The events that precede the answer to a request served by the backend
    [u]: failed forwardings to [u], the delays, the failover lines, the
    marking of [u]. *)
Definition quiet (u : string) (e : event) : Prop :=
  e = Forward u false \/ e = Sleep 10 \/ (exists a, e = LogAttempt a) \/
  e = CallSetNodeStatus u false.

(** The answer: the backend [u] answered, or the request is rejected. *)
Definition response (u : string) (e : event) : Prop :=
  e = Forward u true \/
  e = HttpError "Service not available" StatusServiceUnavailable.

(** [answered u evs k]: quiet events, then one answer, then [k] root
    repairs. *)
Definition answered (u : string) (evs : list event) (k : nat) : Prop :=
  exists pre resp,
    evs = pre ++ resp :: replicate k (CallHeapify 0 true) /\
    Forall (quiet u) pre /\ response u resp.

(** The number of forwardings among the events of a run. *)
Fixpoint count_forwards (evs : list event) : nat :=
  match evs with
  | [] => 0
  | Forward _ _ :: evs => S (count_forwards evs)
  | _ :: evs => count_forwards evs
  end.

(** The URL of the node [NextNode] returns. *)
Definition root_url (s : state) (u : string) : Prop :=
  exists p c, nodes s !! 0%nat = Some p /\ mem s !! p = Some c /\ URL c = u.


(** [keeps s s']: [s'] has the nodes of [s], in some order, at the same
    addresses and with the same URLs. *)
Definition keeps (s s' : state) : Prop :=
  nodes s' ≡ₚ nodes s /\ dom (mem s') = dom (mem s) /\
  forall q c c', mem s !! q = Some c -> mem s' !! q = Some c' -> URL c' = URL c.


(** ** Reading the outcome monad *)

Lemma bind_Done {A B : Type} (m : outcome A) (f : A -> outcome B) (b : B) :
  bind m f = Done b <-> exists a, m = Done a /\ f a = Done b.
Proof.
  destruct m as [a| |]; simpl; split.
  - intros H. exists a. split; [reflexivity | exact H].
  - intros (a' & Ha & H). inversion Ha. subst. exact H.
  - discriminate.
  - intros (a' & Ha & _). discriminate.
  - discriminate.
  - intros (a' & Ha & _). discriminate.
Qed.

Lemma bind_not_OutOfFuel {A B : Type} (m : outcome A) (f : A -> outcome B) :
  m <> OutOfFuel -> (forall a, m = Done a -> f a <> OutOfFuel) ->
  bind m f <> OutOfFuel.
Proof.
  destruct m as [a| |]; simpl; intros Hm Hf.
  - apply Hf. reflexivity.
  - discriminate.
  - congruence.
Qed.

Lemma node_at_Done (s : state) (i : N) (p : ptr) :
  node_at s i = Done p <-> nodes s !! N.to_nat i = Some p.
Proof.
  unfold node_at. destruct (nodes s !! N.to_nat i); split; congruence.
Qed.

Lemma node_at_lt (s : state) (i : N) (p : ptr) :
  node_at s i = Done p -> (i < len s)%N.
Proof.
  rewrite node_at_Done. intros H. apply lookup_lt_Some in H. unfold len. lia.
Qed.

Lemma node_at_total (s : state) (i : N) :
  (i < len s)%N -> exists p, node_at s i = Done p /\ p ∈ nodes s.
Proof.
  unfold len. intros H.
  destruct (lookup_lt_is_Some_2 (nodes s) (N.to_nat i)) as [p Hp]; [lia|].
  exists p. split; [by apply node_at_Done | by eapply list_elem_of_lookup_2].
Qed.

Lemma node_at_not_OutOfFuel (s : state) (i : N) : node_at s i <> OutOfFuel.
Proof. unfold node_at. destruct (nodes s !! N.to_nat i); discriminate. Qed.

Lemma deref_Done (m : gmap ptr Node) (p : ptr) (n : Node) :
  deref m p = Done n <-> m !! p = Some n.
Proof. unfold deref. destruct (m !! p); split; congruence. Qed.

Lemma deref_not_OutOfFuel (m : gmap ptr Node) (p : ptr) : deref m p <> OutOfFuel.
Proof. unfold deref. destruct (m !! p); discriminate. Qed.

(** Break a hypothesis [... = Done _] of a sequence of binds into its steps. *)
Ltac inv_done :=
  repeat match goal with
  | H : bind _ _ = Done _ |- _ =>
      apply bind_Done in H; destruct H as (? & ? & H)
  | H : Done _ = Done _ |- _ => injection H as H; try subst
  | H : Panic = Done _ |- _ => discriminate H
  | H : OutOfFuel = Done _ |- _ => discriminate H
  end.

(** ** Swapping two positions *)

Lemma insert_Permutation {A : Type} (l : list A) (i : nat) (a : A) :
  (i < length l)%nat -> <[i:=a]> l ≡ₚ a :: delete i l.
Proof.
  revert i. induction l as [|b l IH]; intros [|i] Hi; simpl in *; try lia.
  - reflexivity.
  - rewrite IH by lia. apply Permutation_swap.
Qed.

Lemma swap_Permutation {A : Type} (l : list A) (i j : nat) (x y : A) :
  l !! i = Some x -> l !! j = Some y -> <[j:=x]> (<[i:=y]> l) ≡ₚ l.
Proof.
  revert i j. induction l as [|a l IH]; intros [|i] [|j] Hi Hj; simpl in *;
    try discriminate.
  - inversion Hi; subst. reflexivity.
  - inversion Hi; subst.
    rewrite insert_Permutation by (by eapply lookup_lt_Some).
    rewrite (delete_Permutation l j y Hj) at 2. apply Permutation_swap.
  - inversion Hj; subst.
    rewrite insert_Permutation by (by eapply lookup_lt_Some).
    rewrite (delete_Permutation l i x Hi) at 2. apply Permutation_swap.
  - rewrite IH by assumption. reflexivity.
Qed.

Lemma Swap_Done (i j : N) (s s' : state) :
  Swap i j s = Done s' ->
  exists pi pj,
    nodes s !! N.to_nat i = Some pi /\ nodes s !! N.to_nat j = Some pj /\
    s' = State (mem s) (<[N.to_nat j := pi]> (<[N.to_nat i := pj]> (nodes s))).
Proof.
  unfold Swap. intros H. inv_done.
  match goal with H : node_at s i = _ |- _ => apply node_at_Done in H end.
  match goal with H : node_at s j = _ |- _ => apply node_at_Done in H end.
  eauto 6.
Qed.

Lemma Swap_total (i j : N) (s : state) :
  (i < len s)%N -> (j < len s)%N -> exists s', Swap i j s = Done s'.
Proof.
  intros Hi Hj.
  destruct (node_at_total s i Hi) as (pi & Epi & _).
  destruct (node_at_total s j Hj) as (pj & Epj & _).
  unfold Swap. rewrite Epi, Epj. simpl.
  destruct (node_at_total (set_nodes (<[N.to_nat i:=pj]> (nodes s)) s) j) as (q & Eq & _).
  { unfold len in *. simpl. rewrite length_insert. exact Hj. }
  rewrite Eq. simpl. eauto.
Qed.

Lemma update_weight_Done (f : Qc -> Qc) (idx : N) (s s' : state) :
  update_weight f idx s = Done s' ->
  exists p c,
    nodes s !! N.to_nat idx = Some p /\ mem s !! p = Some c /\
    s' = State (<[p := set_weight (f (weight c)) c]> (mem s)) (nodes s).
Proof.
  unfold update_weight. intros H. inv_done.
  match goal with H : node_at _ _ = _ |- _ => apply node_at_Done in H end.
  match goal with H : deref _ _ = _ |- _ => apply deref_Done in H end.
  eauto 6.
Qed.

(** ** One call of [Heapify], step by step *)

Lemma Heapify_rec_inv (fuel : nat) (idx : N) (root : bool) (s s' : state) :
  Heapify_rec (S fuel) idx root s = Done s' ->
  exists s1 b1 b2 s2 b3 s3 b4,
    (if root then update_weight (fun w => w / 2) idx s else Done s) = Done s1 /\
    child_wins s1 (wrap64 (2 * idx + 1)) idx = Done b1 /\
    child_wins s1 (wrap64 (2 * idx + 2))
      (if b1 then wrap64 (2 * idx + 1) else idx) = Done b2 /\
    (if bool_decide
          ((if b2 then wrap64 (2 * idx + 2)
            else if b1 then wrap64 (2 * idx + 1) else idx) ≠ idx)
     then
       exists sa sb,
         (if root then update_weight (fun w => w * 2) idx s1 else Done s1) = Done sa /\
         Swap (if b2 then wrap64 (2 * idx + 2)
               else if b1 then wrap64 (2 * idx + 1) else idx) idx sa = Done sb /\
         Heapify_rec fuel
           (if b2 then wrap64 (2 * idx + 2)
            else if b1 then wrap64 (2 * idx + 1) else idx) false sb = Done s2
     else s2 = s1) /\
    low_weight s2 (wrap64 (2 * idx + 1)) = Done b3 /\
    (if b3 then Heapify_rec fuel (wrap64 (2 * idx + 1)) false s2 else Done s2) = Done s3 /\
    low_weight s3 (wrap64 (2 * idx + 2)) = Done b4 /\
    (if b4 then Heapify_rec fuel (wrap64 (2 * idx + 2)) false s3 else Done s3) = Done s'.
Proof.
  simpl. intros H.
  apply bind_Done in H. destruct H as (s1 & H1 & H).
  apply bind_Done in H. destruct H as (b1 & Hb1 & H).
  apply bind_Done in H. destruct H as (b2 & Hb2 & H).
  apply bind_Done in H. destruct H as (s2 & H2 & H).
  apply bind_Done in H. destruct H as (b3 & Hb3 & H).
  apply bind_Done in H. destruct H as (s3 & H3 & H).
  apply bind_Done in H. destruct H as (b4 & Hb4 & H).
  apply bind_Done in H. destruct H as (s4 & H4 & H).
  inversion H; subst s4; clear H.
  exists s1, b1, b2, s2, b3, s3, b4.
  repeat split; try assumption.
  destruct (bool_decide _).
  - apply bind_Done in H2. destruct H2 as (sa & Ha & H2).
    apply bind_Done in H2. destruct H2 as (sb & Hb & H2).
    exists sa, sb. auto.
  - inversion H2. reflexivity.
Qed.

(** A relation between the state before and after that every swap respects,
    and every weight update too when the call is a root call, relates the
    state before and after a whole call. *)
Lemma Heapify_rec_preserves (R : state -> state -> Prop) :
  (forall s, R s s) ->
  (forall s1 s2 s3, R s1 s2 -> R s2 s3 -> R s1 s3) ->
  (forall i j s s', Swap i j s = Done s' -> R s s') ->
  forall fuel idx root s s',
    (root = true -> forall f i s s', update_weight f i s = Done s' -> R s s') ->
    Heapify_rec fuel idx root s = Done s' -> R s s'.
Proof.
  intros Hrefl Htrans Hswap.
  induction fuel as [|fuel IH]; intros idx root s s' Hupd H; [discriminate|].
  apply Heapify_rec_inv in H.
  destruct H as (s1 & b1 & b2 & s2 & b3 & s3 & b4 & H1 & _ & _ & H2 & _ & H3 & _ & H4).
  assert (R s s1) as R1.
  { destruct root; [eapply Hupd; eauto | inversion H1; apply Hrefl]. }
  assert (R s1 s2) as R2.
  { destruct (bool_decide _).
    - destruct H2 as (sa & sb & Ha & Hb & Hc).
      apply Htrans with sa.
      { destruct root; [eapply Hupd; eauto | inversion Ha; apply Hrefl]. }
      apply Htrans with sb; [eapply Hswap; eauto|].
      eapply IH; [|exact Hc]. discriminate.
    - subst s2. apply Hrefl. }
  assert (R s2 s3) as R3.
  { destruct b3; [eapply IH; [|exact H3]; discriminate | inversion H3; apply Hrefl]. }
  assert (R s3 s') as R4.
  { destruct b4; [eapply IH; [|exact H4]; discriminate | inversion H4; apply Hrefl]. }
  eauto.
Qed.

(** *** The pool is permuted, the memory keeps its cells *)

Lemma Heapify_rec_Permutation (fuel : nat) (idx : N) (root : bool) (s s' : state) :
  Heapify_rec fuel idx root s = Done s' -> nodes s' ≡ₚ nodes s.
Proof.
  apply (Heapify_rec_preserves (fun s s' => nodes s' ≡ₚ nodes s)).
  - reflexivity.
  - intros s1 s2 s3 H12 H23. by rewrite H23.
  - intros i j s0 s0' H. apply Swap_Done in H.
    destruct H as (pi & pj & Hi & Hj & ->). simpl.
    by apply swap_Permutation.
  - intros _ f i s0 s0' H. apply update_weight_Done in H.
    destruct H as (p & c & _ & _ & ->). reflexivity.
Qed.

Lemma Heapify_rec_dom (fuel : nat) (idx : N) (root : bool) (s s' : state) :
  Heapify_rec fuel idx root s = Done s' -> dom (mem s') = dom (mem s).
Proof.
  apply (Heapify_rec_preserves (fun s s' => dom (mem s') = dom (mem s))).
  - reflexivity.
  - intros s1 s2 s3 H12 H23. congruence.
  - intros i j s0 s0' H. apply Swap_Done in H.
    destruct H as (pi & pj & Hi & Hj & ->). reflexivity.
  - intros _ f i s0 s0' H. apply update_weight_Done in H.
    destruct H as (p & c & _ & Hc & ->). simpl.
    rewrite dom_insert_L. apply elem_of_dom_2 in Hc.
    apply subseteq_union_1_L. by apply singleton_subseteq_l.
Qed.

Lemma Heapify_rec_mem (fuel : nat) (idx : N) (s s' : state) :
  Heapify_rec fuel idx false s = Done s' -> mem s' = mem s.
Proof.
  apply (Heapify_rec_preserves (fun s s' => mem s' = mem s)).
  - reflexivity.
  - intros s1 s2 s3 H12 H23. congruence.
  - intros i j s0 s0' H. apply Swap_Done in H.
    destruct H as (pi & pj & Hi & Hj & ->). reflexivity.
  - discriminate.
Qed.

Lemma Heapify_rec_length (fuel : nat) (idx : N) (root : bool) (s s' : state) :
  Heapify_rec fuel idx root s = Done s' -> len s' = len s.
Proof.
  intros H. apply Heapify_rec_Permutation in H. unfold len. by rewrite H.
Qed.

(** ** Termination *)

Lemma wrap64_small (x : N) : (x < 2 ^ 64)%N -> wrap64 x = x.
Proof. apply N.mod_small. Qed.

Lemma update_weight_not_OutOfFuel (f : Qc -> Qc) (idx : N) (s : state) :
  update_weight f idx s <> OutOfFuel.
Proof.
  unfold update_weight.
  apply bind_not_OutOfFuel; [apply node_at_not_OutOfFuel | intros p _].
  apply bind_not_OutOfFuel; [apply deref_not_OutOfFuel | intros c _].
  discriminate.
Qed.

Lemma isActive_not_OutOfFuel (s : state) (p : ptr) : isActive s p <> OutOfFuel.
Proof.
  unfold isActive.
  apply bind_not_OutOfFuel; [apply deref_not_OutOfFuel | discriminate].
Qed.

Lemma getWeight_not_OutOfFuel (s : state) (p : ptr) : getWeight s p <> OutOfFuel.
Proof.
  unfold getWeight.
  apply bind_not_OutOfFuel; [apply deref_not_OutOfFuel | discriminate].
Qed.

Lemma child_wins_not_OutOfFuel (s : state) (child largest : N) :
  child_wins s child largest <> OutOfFuel.
Proof.
  unfold child_wins. destruct (child <? len s)%N; [|discriminate].
  apply bind_not_OutOfFuel; [apply node_at_not_OutOfFuel | intros c _].
  apply bind_not_OutOfFuel; [apply isActive_not_OutOfFuel | intros [|] _];
    [|discriminate].
  apply bind_not_OutOfFuel; [apply getWeight_not_OutOfFuel | intros wc _].
  apply bind_not_OutOfFuel; [apply node_at_not_OutOfFuel | intros l _].
  apply bind_not_OutOfFuel; [apply getWeight_not_OutOfFuel | discriminate].
Qed.

Lemma low_weight_not_OutOfFuel (s : state) (child : N) :
  low_weight s child <> OutOfFuel.
Proof.
  unfold low_weight. destruct (child <? len s)%N; [|discriminate].
  apply bind_not_OutOfFuel; [apply node_at_not_OutOfFuel | intros c _].
  apply bind_not_OutOfFuel; [apply getWeight_not_OutOfFuel | discriminate].
Qed.

Lemma Swap_not_OutOfFuel (i j : N) (s : state) : Swap i j s <> OutOfFuel.
Proof.
  unfold Swap.
  apply bind_not_OutOfFuel; [apply node_at_not_OutOfFuel | intros pi _].
  apply bind_not_OutOfFuel; [apply node_at_not_OutOfFuel | intros pj _].
  apply bind_not_OutOfFuel; [apply node_at_not_OutOfFuel | discriminate].
Qed.

Lemma child_wins_true_lt (s : state) (child largest : N) :
  child_wins s child largest = Done true -> (child < len s)%N.
Proof.
  unfold child_wins. destruct (child <? len s)%N eqn:E; [|discriminate].
  intros _. by apply N.ltb_lt.
Qed.

Lemma low_weight_true_lt (s : state) (child : N) :
  low_weight s child = Done true -> (child < len s)%N.
Proof.
  unfold low_weight. destruct (child <? len s)%N eqn:E; [|discriminate].
  intros _. by apply N.ltb_lt.
Qed.

Lemma update_if_nodes (root : bool) (f : Qc -> Qc) (idx : N) (s s' : state) :
  (if root then update_weight f idx s else Done s) = Done s' -> nodes s' = nodes s.
Proof.
  destruct root; intros H.
  - apply update_weight_Done in H. destruct H as (p & c & _ & _ & ->). reflexivity.
  - inversion H. reflexivity.
Qed.

Lemma update_if_len (root : bool) (f : Qc -> Qc) (idx : N) (s s' : state) :
  (if root then update_weight f idx s else Done s) = Done s' -> len s' = len s.
Proof. intros H. unfold len. by rewrite (update_if_nodes _ _ _ _ _ H). Qed.

Lemma Swap_len (i j : N) (s s' : state) : Swap i j s = Done s' -> len s' = len s.
Proof.
  intros H. apply Swap_Done in H. destruct H as (pi & pj & _ & _ & ->).
  unfold len. simpl. by rewrite !length_insert.
Qed.

(** The index the comparison selects is [idx] or a child of it within the pool. *)
Lemma largest_cases (s : state) (idx : N) (b1 b2 : bool) :
  child_wins s (wrap64 (2 * idx + 1)) idx = Done b1 ->
  child_wins s (wrap64 (2 * idx + 2)) (if b1 then wrap64 (2 * idx + 1) else idx) = Done b2 ->
  let largest := if b2 then wrap64 (2 * idx + 2)
                 else if b1 then wrap64 (2 * idx + 1) else idx in
  largest = idx \/
  ((largest = wrap64 (2 * idx + 1) \/ largest = wrap64 (2 * idx + 2)) /\
   (largest < len s)%N).
Proof.
  intros H1 H2. destruct b2; simpl.
  - right. split; [by right | by eapply child_wins_true_lt].
  - destruct b1; [|by left].
    right. split; [by left | by eapply child_wins_true_lt].
Qed.

Lemma Heapify_rec_not_OutOfFuel (fuel : nat) :
  forall (idx : N) (root : bool) (s : state),
    (len s < 2 ^ 63)%N -> (idx < len s)%N ->
    (N.to_nat (len s - idx) <= fuel)%nat ->
    Heapify_rec fuel idx root s <> OutOfFuel.
Proof.
  induction fuel as [|fuel IH]; intros idx root s Hlen Hidx Hfuel; [lia|].
  assert (wrap64 (2 * idx + 1) = 2 * idx + 1)%N as El by (apply wrap64_small; lia).
  assert (wrap64 (2 * idx + 2) = 2 * idx + 2)%N as Er by (apply wrap64_small; lia).
  simpl.
  apply bind_not_OutOfFuel.
  { destruct root; [apply update_weight_not_OutOfFuel | discriminate]. }
  intros s1 H1. apply update_if_len in H1.
  apply bind_not_OutOfFuel; [apply child_wins_not_OutOfFuel | intros b1 Hb1].
  apply bind_not_OutOfFuel; [apply child_wins_not_OutOfFuel | intros b2 Hb2].
  pose proof (largest_cases _ _ _ _ Hb1 Hb2) as Hl. simpl in Hl.
  set (largest := if b2 then wrap64 (2 * idx + 2)
                  else if b1 then wrap64 (2 * idx + 1) else idx) in *.
  apply bind_not_OutOfFuel.
  { destruct (bool_decide (largest ≠ idx)) eqn:E; [|discriminate].
    apply bool_decide_eq_true in E.
    destruct Hl as [Hl | [Hl Hlt]]; [done|].
    apply bind_not_OutOfFuel.
    { destruct root; [apply update_weight_not_OutOfFuel | discriminate]. }
    intros sa Ha. apply update_if_len in Ha.
    apply bind_not_OutOfFuel; [apply Swap_not_OutOfFuel | intros sb Hb].
    apply Swap_len in Hb.
    apply IH; rewrite Hb, Ha; [lia | lia |]. rewrite H1. lia. }
  intros s2 H2.
  assert (len s2 = len s) as E2.
  { destruct (bool_decide (largest ≠ idx)).
    - apply bind_Done in H2. destruct H2 as (sa & Ha & H2).
      apply bind_Done in H2. destruct H2 as (sb & Hb & H2).
      apply Heapify_rec_length in H2. apply Swap_len in Hb.
      apply update_if_len in Ha. congruence.
    - inversion H2. subst. exact H1. }
  apply bind_not_OutOfFuel; [apply low_weight_not_OutOfFuel | intros b3 Hb3].
  apply bind_not_OutOfFuel.
  { destruct b3; [|discriminate]. apply low_weight_true_lt in Hb3.
    apply IH; rewrite E2; lia. }
  intros s3 H3.
  assert (len s3 = len s) as E3.
  { destruct b3; [apply Heapify_rec_length in H3 | inversion H3; subst]; congruence. }
  apply bind_not_OutOfFuel; [apply low_weight_not_OutOfFuel | intros b4 Hb4].
  apply bind_not_OutOfFuel; [|discriminate].
  destruct b4; [|discriminate]. apply low_weight_true_lt in Hb4.
  apply IH; rewrite E3; lia.
Qed.

(** ** No panic on a well-formed pool *)

Lemma wf_transport (s s' : state) :
  wf s -> nodes s' ≡ₚ nodes s -> dom (mem s') = dom (mem s) -> wf s'.
Proof.
  intros [Hn H0] Hp Hd. split.
  - rewrite Hd, Hp. exact Hn.
  - by rewrite Hd.
Qed.

Lemma Heapify_rec_wf (fuel : nat) (idx : N) (root : bool) (s s' : state) :
  wf s -> Heapify_rec fuel idx root s = Done s' -> wf s'.
Proof.
  intros W H. eapply wf_transport; [exact W | |].
  - eapply Heapify_rec_Permutation, H.
  - eapply Heapify_rec_dom, H.
Qed.

Lemma deref_total (m : gmap ptr Node) (p : ptr) :
  p ∈ dom m -> exists n, deref m p = Done n.
Proof.
  intros H. apply elem_of_dom in H. destruct H as [n Hn].
  exists n. by apply deref_Done.
Qed.

Lemma read_total (s : state) (i : N) :
  wf s -> (i < len s)%N ->
  exists p n, node_at s i = Done p /\ deref (mem s) p = Done n.
Proof.
  intros [Hn _] Hi. destruct (node_at_total s i Hi) as (p & Ep & Hin).
  rewrite Forall_forall in Hn.
  destruct (deref_total (mem s) p (Hn p Hin)) as (n & En). eauto.
Qed.

Lemma update_weight_total (f : Qc -> Qc) (idx : N) (s : state) :
  wf s -> (idx < len s)%N ->
  exists s', update_weight f idx s = Done s' /\ wf s'.
Proof.
  intros W Hi. destruct (read_total s idx W Hi) as (p & n & Ep & En).
  unfold update_weight. rewrite Ep. simpl. rewrite En. simpl.
  eexists. split; [reflexivity|].
  eapply wf_transport; [exact W | reflexivity |]. simpl.
  apply deref_Done, elem_of_dom_2 in En.
  rewrite dom_insert_L. apply subseteq_union_1_L. by apply singleton_subseteq_l.
Qed.

Lemma update_if_total (root : bool) (f : Qc -> Qc) (idx : N) (s : state) :
  wf s -> (idx < len s)%N ->
  exists s', (if root then update_weight f idx s else Done s) = Done s' /\ wf s'.
Proof.
  intros W Hi. destruct root; [by apply update_weight_total | eauto].
Qed.

Lemma child_wins_total (s : state) (child largest : N) :
  wf s -> (largest < len s)%N -> exists b, child_wins s child largest = Done b.
Proof.
  intros W Hl. unfold child_wins.
  destruct (child <? len s)%N eqn:E; [|eauto]. apply N.ltb_lt in E.
  destruct (read_total s child W E) as (c & nc & Ec & Enc).
  destruct (read_total s largest W Hl) as (l & nl & El & Enl).
  unfold isActive, getWeight. rewrite Ec. simpl. rewrite Enc. simpl.
  destruct (Active nc); [|eauto].
  rewrite El. simpl. rewrite Enl. simpl. eauto.
Qed.

Lemma low_weight_total (s : state) (child : N) :
  wf s -> exists b, low_weight s child = Done b.
Proof.
  intros W. unfold low_weight.
  destruct (child <? len s)%N eqn:E; [|eauto]. apply N.ltb_lt in E.
  destruct (read_total s child W E) as (c & nc & Ec & Enc).
  unfold getWeight. rewrite Ec. simpl. rewrite Enc. simpl. eauto.
Qed.

Lemma Swap_wf (i j : N) (s s' : state) : wf s -> Swap i j s = Done s' -> wf s'.
Proof.
  intros W H. apply Swap_Done in H. destruct H as (pi & pj & Hi & Hj & ->).
  eapply wf_transport; [exact W | | reflexivity]. simpl.
  by apply swap_Permutation.
Qed.

(** With fuel for the distance to the end of the pool, a call on a
    well-formed pool returns. *)
Lemma Heapify_rec_total (fuel : nat) :
  forall (idx : N) (root : bool) (s : state),
    wf s -> (len s < 2 ^ 63)%N -> (idx < len s)%N ->
    (N.to_nat (len s - idx) <= fuel)%nat ->
    exists s', Heapify_rec fuel idx root s = Done s'.
Proof.
  induction fuel as [|fuel IH]; intros idx root s W Hlen Hidx Hfuel; [lia|].
  assert (wrap64 (2 * idx + 1) = 2 * idx + 1)%N as El by (apply wrap64_small; lia).
  assert (wrap64 (2 * idx + 2) = 2 * idx + 2)%N as Er by (apply wrap64_small; lia).
  simpl.
  destruct (update_if_total root (fun w => w / 2) idx s W Hidx) as (s1 & E1 & W1).
  rewrite E1. simpl. apply update_if_len in E1.
  destruct (child_wins_total s1 (wrap64 (2 * idx + 1)) idx W1) as (b1 & Eb1); [lia|].
  rewrite Eb1. simpl.
  assert (exists b2, child_wins s1 (wrap64 (2 * idx + 2))
            (if b1 then wrap64 (2 * idx + 1) else idx) = Done b2) as (b2 & Eb2).
  { apply child_wins_total; [exact W1|].
    destruct b1; [by eapply child_wins_true_lt | lia]. }
  rewrite Eb2. simpl.
  pose proof (largest_cases _ _ _ _ Eb1 Eb2) as Hl. simpl in Hl.
  set (largest := if b2 then wrap64 (2 * idx + 2)
                  else if b1 then wrap64 (2 * idx + 1) else idx) in *.
  assert (exists s2, (if bool_decide (largest ≠ idx)
                      then sa <- (if root then update_weight (fun w => w * 2) idx s1
                                  else Done s1);;
                           sb <- Swap largest idx sa;;
                           Heapify_rec fuel largest false sb
                      else Done s1) = Done s2 /\ wf s2 /\ len s2 = len s)
    as (s2 & E2 & W2 & L2).
  { destruct (bool_decide (largest ≠ idx)) eqn:E; [|eauto].
    apply bool_decide_eq_true in E.
    destruct Hl as [Hl | [Hl Hlt]]; [done|].
    destruct (update_if_total root (fun w => w * 2) idx s1 W1) as (sa & Ea & Wa); [lia|].
    rewrite Ea. simpl. apply update_if_len in Ea.
    destruct (Swap_total largest idx sa) as (sb & Eb); [lia | lia |].
    rewrite Eb. simpl. pose proof (Swap_wf _ _ _ _ Wa Eb) as Wb.
    apply Swap_len in Eb.
    destruct (IH largest false sb Wb) as (s2 & E2); [lia | lia | lia |].
    exists s2. split; [exact E2|]. split; [by eapply Heapify_rec_wf|].
    apply Heapify_rec_length in E2. congruence. }
  rewrite E2. simpl.
  destruct (low_weight_total s2 (wrap64 (2 * idx + 1)) W2) as (b3 & Eb3).
  rewrite Eb3. simpl.
  assert (exists s3, (if b3 then Heapify_rec fuel (wrap64 (2 * idx + 1)) false s2
                      else Done s2) = Done s3 /\ wf s3 /\ len s3 = len s)
    as (s3 & E3 & W3 & L3).
  { destruct b3; [|eauto]. apply low_weight_true_lt in Eb3.
    destruct (IH (wrap64 (2 * idx + 1)) false s2 W2) as (s3 & E3); [lia | lia | lia |].
    exists s3. split; [exact E3|]. split; [by eapply Heapify_rec_wf|].
    apply Heapify_rec_length in E3. congruence. }
  rewrite E3. simpl.
  destruct (low_weight_total s3 (wrap64 (2 * idx + 2)) W3) as (b4 & Eb4).
  rewrite Eb4. simpl.
  destruct b4; [|eauto]. apply low_weight_true_lt in Eb4.
  destruct (IH (wrap64 (2 * idx + 2)) false s3 W3) as (s4 & E4); [lia | lia | lia |].
  rewrite E4. simpl. eauto.
Qed.

Lemma Heapify_total (idx : N) (root : bool) (s : state) :
  wf s -> (len s < 2 ^ 63)%N -> (idx < len s)%N ->
  exists s', Heapify idx root s = Done s' /\ wf s' /\ len s' = len s.
Proof.
  intros W Hlen Hidx. unfold Heapify.
  destruct (Heapify_rec_total (S (length (nodes s))) idx root s W Hlen Hidx)
    as (s' & E); [unfold len; lia|].
  exists s'. split; [exact E|]. split; [by eapply Heapify_rec_wf|].
  by eapply Heapify_rec_length.
Qed.

(** ** More fuel does not change a result *)

Lemma refines_refl {A : Type} (o : outcome A) : refines o o.
Proof. by right. Qed.

Lemma bind_refines {A B : Type} (m m' : outcome A) (f f' : A -> outcome B) :
  refines m m' -> (forall a, refines (f a) (f' a)) ->
  refines (bind m f) (bind m' f').
Proof.
  intros [-> | <-] Hf; [by left|].
  destruct m as [a| |]; simpl; [apply Hf | by right | by left].
Qed.

Lemma if_refines {A : Type} (b : bool) (o1 o1' o2 o2' : outcome A) :
  refines o1 o1' -> refines o2 o2' ->
  refines (if b then o1 else o2) (if b then o1' else o2').
Proof. by destruct b. Qed.

Lemma Heapify_rec_fuel_S (fuel : nat) :
  forall idx root s,
    refines (Heapify_rec fuel idx root s) (Heapify_rec (S fuel) idx root s).
Proof.
  induction fuel as [|fuel IH]; intros idx root s; [by left|].
  change (Heapify_rec (S (S fuel)) idx root s) with
    (let largest := idx in
     let left := wrap64 (2 * idx + 1) in
     let right := wrap64 (2 * idx + 2) in
     s <- (if root then update_weight (fun w => w / 2) idx s else Done s);;
     b <- child_wins s left largest;;
     let largest := if b then left else largest in
     b <- child_wins s right largest;;
     let largest := if b then right else largest in
     s <- (if bool_decide (largest ≠ idx) then
             s <- (if root then update_weight (fun w => w * 2) idx s else Done s);;
             s <- Swap largest idx s;;
             Heapify_rec (S fuel) largest false s
           else Done s);;
     b <- low_weight s left;;
     s <- (if b then Heapify_rec (S fuel) left false s else Done s);;
     b <- low_weight s right;;
     s <- (if b then Heapify_rec (S fuel) right false s else Done s);;
     Done s).
  cbn [Heapify_rec]. cbv zeta.
  apply bind_refines; [apply refines_refl | intros s1].
  apply bind_refines; [apply refines_refl | intros b1].
  apply bind_refines; [apply refines_refl | intros b2].
  apply bind_refines.
  { apply if_refines; [|apply refines_refl].
    apply bind_refines; [apply refines_refl | intros sa].
    apply bind_refines; [apply refines_refl | intros sb]. apply IH. }
  intros s2.
  apply bind_refines; [apply refines_refl | intros b3].
  apply bind_refines; [apply if_refines; [apply IH | apply refines_refl] | intros s3].
  apply bind_refines; [apply refines_refl | intros b4].
  apply bind_refines; [apply if_refines; [apply IH | apply refines_refl] | intros s4].
  apply refines_refl.
Qed.

Lemma Heapify_rec_fuel_mono (fuel fuel' : nat) (idx : N) (root : bool) (s s' : state) :
  (fuel <= fuel')%nat ->
  Heapify_rec fuel idx root s = Done s' -> Heapify_rec fuel' idx root s = Done s'.
Proof.
  induction 1 as [|fuel' Hle IH]; intros H; [exact H|].
  destruct (Heapify_rec_fuel_S fuel' idx root s) as [E | E].
  - rewrite IH in E by exact H. discriminate.
  - rewrite <- E. by apply IH.
Qed.

(** ** What the comparisons say *)

Lemma cell_Some (s : state) (i : N) (n : Node) :
  cell s i = Some n <->
  exists p, nodes s !! N.to_nat i = Some p /\ mem s !! p = Some n.
Proof.
  unfold cell. destruct (nodes s !! N.to_nat i) as [p|]; split.
  - eauto.
  - intros (q & Hq & Hn). by inversion Hq.
  - discriminate.
  - intros (q & Hq & _). discriminate.
Qed.

Lemma cell_lt (s : state) (i : N) (n : Node) : cell s i = Some n -> (i < len s)%N.
Proof.
  rewrite cell_Some. intros (p & Hp & _). apply lookup_lt_Some in Hp.
  unfold len. lia.
Qed.

Lemma child_wins_true (s : state) (child largest : N) :
  child_wins s child largest = Done true ->
  exists nc nl, cell s child = Some nc /\ cell s largest = Some nl /\
                Active nc = true /\ weight nl < weight nc.
Proof.
  unfold child_wins, isActive, getWeight.
  destruct (child <? len s)%N; [|discriminate]. intros H. inv_done.
  repeat match goal with
  | H : node_at _ _ = Done _ |- _ => apply node_at_Done in H
  | H : deref _ _ = Done _ |- _ => apply deref_Done in H
  end.
  match goal with
  | H : (if Active ?n then _ else _) = Done true |- _ =>
      destruct (Active n) eqn:Ea; [|discriminate]
  end.
  inv_done.
  repeat match goal with
  | H : node_at _ _ = Done _ |- _ => apply node_at_Done in H
  | H : deref _ _ = Done _ |- _ => apply deref_Done in H
  end.
  match goal with
  | H : bool_decide _ = true |- _ => apply bool_decide_eq_true in H
  end.
  simplify_eq.
  match goal with
  | Hw : weight ?b < weight ?a |- _ => exists a, b
  end.
  repeat split; try (apply cell_Some; eauto); done.
Qed.

Lemma child_wins_false (s : state) (child largest : N) (nc nl : Node) :
  child_wins s child largest = Done false ->
  cell s child = Some nc -> cell s largest = Some nl -> Active nc = true ->
  weight nc <= weight nl.
Proof.
  intros H Hc Hl Ha. pose proof (cell_lt _ _ _ Hc) as Hlt.
  apply cell_Some in Hc. destruct Hc as (pc & Hpc & Hnc).
  apply cell_Some in Hl. destruct Hl as (pl & Hpl & Hnl).
  unfold child_wins, isActive, getWeight, node_at, deref in H.
  apply N.ltb_lt in Hlt. rewrite Hlt, Hpc in H. simpl in H.
  rewrite Hnc in H. simpl in H. rewrite Ha, Hpl in H. simpl in H.
  rewrite Hnl in H. simpl in H. inversion H as [E].
  apply bool_decide_eq_false in E. by apply Qcnot_lt_le.
Qed.

Lemma low_weight_true (s : state) (child : N) :
  low_weight s child = Done true ->
  exists nc, cell s child = Some nc /\ weight nc < 1.
Proof.
  unfold low_weight, getWeight.
  destruct (child <? len s)%N; [|discriminate]. intros H. inv_done.
  repeat match goal with
  | H : node_at _ _ = Done _ |- _ => apply node_at_Done in H
  | H : deref _ _ = Done _ |- _ => apply deref_Done in H
  end.
  match goal with
  | H : bool_decide _ = true |- _ => apply bool_decide_eq_true in H
  end.
  eexists. split; [apply cell_Some; eauto | done].
Qed.

(** ** Halving and restoring *)

Lemma set_weight_restore (n : Node) :
  set_weight (weight n / 2 * 2) (set_weight (weight n / 2) n) = n.
Proof.
  destruct n as [u a w]. unfold set_weight. simpl. f_equal.
  field. discriminate.
Qed.

Lemma state_eq (s : state) (m : gmap ptr Node) (l : list ptr) :
  m = mem s -> l = nodes s -> State m l = s.
Proof. destruct s. simpl. by intros -> ->. Qed.

(** The doubling of a demoted root undoes its halving exactly. *)
Lemma halve_restore (idx : N) (s s1 sa : state) :
  update_weight (fun w => w / 2) idx s = Done s1 ->
  update_weight (fun w => w * 2) idx s1 = Done sa ->
  sa = s.
Proof.
  intros H1 H2.
  apply update_weight_Done in H1. destruct H1 as (p & c & Hp & Hc & ->).
  apply update_weight_Done in H2. destruct H2 as (p' & c' & Hp' & Hc' & ->).
  simpl in *. rewrite Hp in Hp'. inversion Hp'; subst p'.
  rewrite lookup_insert_eq in Hc'. inversion Hc'; subst c'. clear Hp' Hc'.
  apply state_eq; [|reflexivity].
  rewrite insert_insert_eq.
  change (weight (set_weight (weight c / 2) c)) with (weight c / 2).
  rewrite set_weight_restore. by apply insert_id.
Qed.

Lemma restore_if (root : bool) (idx : N) (s s1 sa : state) :
  (if root then update_weight (fun w => w / 2) idx s else Done s) = Done s1 ->
  (if root then update_weight (fun w => w * 2) idx s1 else Done s1) = Done sa ->
  sa = s.
Proof.
  destruct root; [apply halve_restore|]. intros H1 H2. congruence.
Qed.

(** One call on an index within a pool of Go-representable length: the
    children are [2*idx+1] and [2*idx+2] without wrap-around, and a demoted
    root is swapped with its weight restored. *)
Lemma Heapify_rec_cases (fuel : nat) (idx : N) (root : bool) (s s' : state) :
  (len s < 2 ^ 63)%N -> (idx < len s)%N ->
  Heapify_rec (S fuel) idx root s = Done s' ->
  exists s1 b1 b2 s2 b3 s3 b4,
    (if root then update_weight (fun w => w / 2) idx s else Done s) = Done s1 /\
    child_wins s1 (2 * idx + 1) idx = Done b1 /\
    child_wins s1 (2 * idx + 2) (if b1 then 2 * idx + 1 else idx)%N = Done b2 /\
    ((b1 = false /\ b2 = false /\ s2 = s1) \/
     (exists c sb,
        c = (if b2 then 2 * idx + 2 else 2 * idx + 1)%N /\
        (b1 = true \/ b2 = true) /\ (c < len s)%N /\
        Swap c idx s = Done sb /\
        Heapify_rec fuel c false sb = Done s2)) /\
    low_weight s2 (2 * idx + 1) = Done b3 /\
    (if b3 then Heapify_rec fuel (2 * idx + 1) false s2 else Done s2) = Done s3 /\
    low_weight s3 (2 * idx + 2) = Done b4 /\
    (if b4 then Heapify_rec fuel (2 * idx + 2) false s3 else Done s3) = Done s'.
Proof.
  intros Hlen Hidx H. apply Heapify_rec_inv in H.
  rewrite !(wrap64_small (2 * idx + 1)), !(wrap64_small (2 * idx + 2)) in H by lia.
  destruct H as (s1 & b1 & b2 & s2 & b3 & s3 & b4 & H1 & Hb1 & Hb2 & H2 & H3).
  exists s1, b1, b2, s2, b3, s3, b4.
  split; [exact H1|]. split; [exact Hb1|]. split; [exact Hb2|].
  split; [|exact H3].
  pose proof (update_if_len _ _ _ _ _ H1) as L1.
  destruct b2.
  - rewrite bool_decide_eq_true_2 in H2 by lia.
    destruct H2 as (sa & sb & Ha & Hb & Hc).
    rewrite (restore_if _ _ _ _ _ H1 Ha) in Hb.
    right. exists (2 * idx + 2)%N, sb. repeat split; auto.
    rewrite <- L1. by eapply child_wins_true_lt.
  - destruct b1.
    + rewrite bool_decide_eq_true_2 in H2 by lia.
      destruct H2 as (sa & sb & Ha & Hb & Hc).
      rewrite (restore_if _ _ _ _ _ H1 Ha) in Hb.
      right. exists (2 * idx + 1)%N, sb. repeat split; auto.
      rewrite <- L1. by eapply child_wins_true_lt.
    + rewrite bool_decide_eq_false_2 in H2 by (intros E; by apply E).
      left. auto.
Qed.

(** ** Positions a call can touch *)

Lemma below_ge (a j : N) : below a j -> (a <= j)%N.
Proof. induction 1; lia. Qed.

Lemma below_child (a c j : N) :
  (c = 2 * a + 1 \/ c = 2 * a + 2)%N -> below c j -> below a j.
Proof.
  intros Hc. induction 1 as [|j _ IH|j _ IH].
  - destruct Hc as [-> | ->]; constructor; constructor.
  - by constructor.
  - by constructor.
Qed.


Lemma Swap_lookup_ne (i j k : N) (s s' : state) :
  Swap i j s = Done s' -> k ≠ i -> k ≠ j ->
  nodes s' !! N.to_nat k = nodes s !! N.to_nat k.
Proof.
  intros H Hi Hj. apply Swap_Done in H. destruct H as (pi & pj & _ & _ & ->).
  simpl. rewrite !list_lookup_insert_ne by lia. reflexivity.
Qed.

Lemma Swap_lookup (i j : N) (s s' : state) :
  Swap i j s = Done s' ->
  nodes s' !! N.to_nat j = nodes s !! N.to_nat i /\
  (i ≠ j -> nodes s' !! N.to_nat i = nodes s !! N.to_nat j) /\
  mem s' = mem s.
Proof.
  intros H. apply Swap_Done in H. destruct H as (pi & pj & Hi & Hj & ->).
  simpl. split; [|split; [|reflexivity]].
  - rewrite list_lookup_insert_eq; [by rewrite Hi|].
    rewrite length_insert. by eapply lookup_lt_Some.
  - intros Hne. rewrite list_lookup_insert_ne by lia.
    rewrite list_lookup_insert_eq; [by rewrite Hj|]. by eapply lookup_lt_Some.
Qed.

(** A call at [idx] leaves every position outside the subtree of [idx]. *)
Lemma Heapify_rec_frame (fuel : nat) :
  forall (idx : N) (root : bool) (s s' : state),
    (len s < 2 ^ 63)%N -> (idx < len s)%N ->
    Heapify_rec fuel idx root s = Done s' ->
    forall j, ~ below idx j -> nodes s' !! N.to_nat j = nodes s !! N.to_nat j.
Proof.
  induction fuel as [|fuel IH]; intros idx root s s' Hlen Hidx H j Hj; [discriminate|].
  apply Heapify_rec_cases in H; [|done|done].
  destruct H as (s1 & b1 & b2 & s2 & b3 & s3 & b4 & H1 & Hb1 & Hb2 & H2 & Hb3 & H3 & Hb4 & H4).
  assert (forall c, (c = 2 * idx + 1 \/ c = 2 * idx + 2)%N -> ~ below c j) as Hc.
  { intros c Hc Hb. apply Hj. by eapply below_child. }
  pose proof (update_if_nodes _ _ _ _ _ H1) as N1.
  assert (nodes s2 !! N.to_nat j = nodes s !! N.to_nat j /\ len s2 = len s) as [E2 L2].
  { destruct H2 as [(_ & _ & ->) | (c & sb & Ec & _ & Hlt & Hsw & Hrec)].
    - split; [by rewrite N1 | unfold len; by rewrite N1].
    - assert (c = 2 * idx + 1 \/ c = 2 * idx + 2)%N as Hcc by (destruct b2; auto).
      clear Ec. pose proof (Swap_len _ _ _ _ Hsw) as Lb. split.
      + rewrite (IH c false sb s2 ltac:(lia) ltac:(lia) Hrec j (Hc c Hcc)).
        eapply Swap_lookup_ne; [exact Hsw | |].
        * intros ->. apply (Hc c Hcc). constructor.
        * intros ->. apply Hj. constructor.
      + apply Heapify_rec_length in Hrec. congruence. }
  assert (nodes s3 !! N.to_nat j = nodes s !! N.to_nat j /\ len s3 = len s) as [E3 L3].
  { destruct b3; [|injection H3 as <-; done].
    apply low_weight_true_lt in Hb3. split.
    - rewrite (IH (2 * idx + 1)%N false s2 s3 ltac:(lia) ltac:(lia) H3 j); [done | apply Hc; auto].
    - apply Heapify_rec_length in H3. congruence. }
  destruct b4; [|injection H4 as <-; done].
  apply low_weight_true_lt in Hb4.
  rewrite (IH (2 * idx + 2)%N false s3 s' ltac:(lia) ltac:(lia) H4 j); [done | apply Hc; auto].
Qed.

(** The corrective pass on a child touches neither the memory nor the
    position of the parent. *)
Lemma pass_frame (fuel : nat) (b : bool) (idx c : N) (s s' : state) :
  (len s < 2 ^ 63)%N -> (idx < c)%N ->
  low_weight s c = Done b ->
  (if b then Heapify_rec fuel c false s else Done s) = Done s' ->
  mem s' = mem s /\ len s' = len s /\
  forall j, ~ below c j -> nodes s' !! N.to_nat j = nodes s !! N.to_nat j.
Proof.
  intros Hlen Hc Hb H. destruct b; [|injection H as <-; done].
  apply low_weight_true_lt in Hb.
  split; [by eapply Heapify_rec_mem|]. split; [by eapply Heapify_rec_length|].
  by eapply Heapify_rec_frame.
Qed.

(** What a call does to the node it is called on: it wins the comparison
    and stays in place, halved by a root call; or it loses, and is swapped
    down with its weight as before. *)
Lemma Heapify_rec_root (fuel : nat) (idx : N) (root : bool) (s s' : state)
    (p : ptr) (n : Node) :
  (len s < 2 ^ 63)%N -> (idx < len s)%N ->
  Heapify_rec fuel idx root s = Done s' ->
  nodes s !! N.to_nat idx = Some p -> mem s !! p = Some n ->
  (dominates (compared root p n s) idx /\
   nodes s' !! N.to_nat idx = Some p /\ mem s' = mem (compared root p n s)) \/
  (~ dominates (compared root p n s) idx /\
   nodes s' !! N.to_nat idx ≠ Some p /\ mem s' = mem s).
Proof.
  intros Hlen Hidx H Hp Hn. destruct fuel as [|fuel]; [discriminate|].
  apply Heapify_rec_cases in H; [|done|done].
  destruct H as (s1 & b1 & b2 & s2 & b3 & s3 & b4 & H1 & Hb1 & Hb2 & H2 & Hb3 & H3 & Hb4 & H4).
  assert (s1 = compared root p n s) as E1.
  { unfold compared. destruct root.
    - apply update_weight_Done in H1. destruct H1 as (p' & c' & Hp' & Hc' & ->).
      simplify_eq. done.
    - by injection H1 as <-. }
  assert (nodes s1 = nodes s) as N1 by (subst s1; unfold compared; by destruct root).
  rewrite <- E1. clear E1.
  assert (len s2 = len s /\
          ((dominates s1 idx /\ nodes s2 !! N.to_nat idx = Some p /\ mem s2 = mem s1) \/
           (~ dominates s1 idx /\ nodes s2 !! N.to_nat idx ≠ Some p /\ mem s2 = mem s)))
    as [L2 C2].
  { destruct H2 as [(-> & -> & ->) | (c & sb & Ec & Hb & Hlt & Hsw & Hrec)].
    - split; [unfold len; by rewrite N1|]. left.
      split; [|by rewrite N1].
      simpl in Hb2.
      intros c ni nc [-> | ->] Hi Hc Ha.
      + by eapply (child_wins_false s1 (2 * idx + 1) idx).
      + by eapply (child_wins_false s1 (2 * idx + 2) idx).
    - assert (c = 2 * idx + 1 \/ c = 2 * idx + 2)%N as Hcc by (destruct b2; auto).
      pose proof (Swap_len _ _ _ _ Hsw) as Lb.
      destruct (Swap_lookup _ _ _ _ Hsw) as (Sj & Si & Sm).
      split; [apply Heapify_rec_length in Hrec; congruence|]. right.
      rewrite (Heapify_rec_mem _ _ _ _ Hrec), Sm.
      assert (exists c0 nc ni, (c0 = 2 * idx + 1 \/ c0 = 2 * idx + 2)%N /\
                cell s1 c0 = Some nc /\ cell s1 idx = Some ni /\
                Active nc = true /\ weight ni < weight nc)
        as (c0 & nc0 & ni0 & Hc0 & Hnc0 & Hni0 & Ha0 & Hlt0).
      { destruct b1.
        - apply child_wins_true in Hb1. destruct Hb1 as (nc & ni & A1 & A2 & A3 & A4).
          exists (2 * idx + 1)%N, nc, ni. repeat split; auto.
        - destruct Hb as [? | ->]; [done|].
          apply child_wins_true in Hb2. destruct Hb2 as (nc & ni & A1 & A2 & A3 & A4).
          exists (2 * idx + 2)%N, nc, ni. repeat split; auto. }
      split.
      { intros Hd. specialize (Hd c0 ni0 nc0 Hc0 Hni0 Hnc0 Ha0).
        by apply Qclt_not_le in Hlt0. }
      split; [|done].
      rewrite (Heapify_rec_frame fuel c false sb s2 ltac:(lia) ltac:(lia) Hrec idx);
        [|intros Hbl; apply below_ge in Hbl; lia].
      rewrite Sj. intros Hq.
      (* the winner would be the node itself, heavier than itself *)
      assert (child_wins s1 c (if b2 then (if b1 then 2 * idx + 1 else idx)%N else idx)
              = Done true) as Hw.
      { destruct b2; [by subst c|]. destruct Hb as [->| ?]; [by subst c | done]. }
      apply child_wins_true in Hw. destruct Hw as (nc & nl & Hnc & Hnl & _ & Hlt').
      assert (weight nc <= weight nl) as Hle; [|by apply Qclt_not_le in Hlt'].
      apply cell_Some in Hnc. destruct Hnc as (q & Hq' & Hnc).
      rewrite N1, Hq in Hq'. injection Hq' as <-.
      destruct b2; [destruct b1|].
      + (* compared with the left child, itself heavier than the node *)
        apply child_wins_true in Hb1.
        destruct Hb1 as (ml & mi & Hml & Hmi & _ & Hlt1).
        apply cell_Some in Hmi. destruct Hmi as (q & Hq' & Hmi).
        rewrite N1, Hp in Hq'. injection Hq' as <-.
        rewrite Hml in Hnl. injection Hnl as <-.
        rewrite Hmi in Hnc. injection Hnc as <-.
        by apply Qclt_le_weak.
      + apply cell_Some in Hnl. destruct Hnl as (q & Hq' & Hnl).
        rewrite N1, Hp in Hq'. injection Hq' as <-.
        rewrite Hnl in Hnc. injection Hnc as <-. apply Qcle_refl.
      + apply cell_Some in Hnl. destruct Hnl as (q & Hq' & Hnl).
        rewrite N1, Hp in Hq'. injection Hq' as <-.
        rewrite Hnl in Hnc. injection Hnc as <-. apply Qcle_refl. }
  destruct (pass_frame fuel b3 idx (2 * idx + 1) s2 s3) as (M3 & L3 & F3);
    [lia | lia | done | done |].
  destruct (pass_frame fuel b4 idx (2 * idx + 2) s3 s') as (M4 & L4 & F4);
    [lia | lia | done | done |].
  rewrite F4, F3 by (intros Hbl; apply below_ge in Hbl; lia).
  rewrite M4, M3.
  destruct C2 as [(Hd & Hs & Hm) | (Hd & Hs & Hm)]; [left | right]; done.
Qed.

(** ** Arithmetic of the weights *)

Lemma half_pos (w : Qc) : 0 < w -> 0 < w / 2.
Proof. intros H. apply Qcmult_pos_pos; [exact H | by apply Qcinv_pos]. Qed.

Lemma half_double (w : Qc) : w / 2 + w / 2 = w.
Proof. field. discriminate. Qed.

Lemma half_lt (w : Qc) : 0 < w -> w / 2 < w.
Proof.
  intros H. rewrite <- (half_double w) at 2.
  rewrite <- (Qcplus_0_r (w / 2)) at 1.
  apply Qcplus_lt_mono_l. by apply half_pos.
Qed.


(** ** Health update *)

(** C4. [SetProps] is exactly the stated update.  On an allocated node it
    returns; afterwards the node is active iff [status]; if [status] is false
    its weight is the old one times 1/3, whatever its activity was; if
    [status] is true the weight is doubled when it was below 1 and is
    unchanged otherwise; the URL of the node and every other node are as
    before. *)
Theorem SetProps_exact (m : gmap ptr Node) (p : ptr) (n : Node) (status : bool) :
  m !! p = Some n ->
  exists m' n',
    SetProps p status m = Done m' /\
    m' !! p = Some n' /\
    Active n' = status /\
    (status = false -> weight n' = weight n * (1 / Q2Qc 3)) /\
    (status = true -> weight n < 1 -> weight n' = weight n * 2) /\
    (status = true -> 1 <= weight n -> weight n' = weight n) /\
    URL n' = URL n /\
    (forall q, q ≠ p -> m' !! q = m !! q) /\
    dom m' = dom m.
Proof.
  intros Hn. unfold SetProps, deref. rewrite Hn. simpl.
  eexists _, _. split; [reflexivity|]. split; [apply lookup_insert_eq|].
  assert (forall c, dom (<[p:=c]> m) = dom m) as Hdom.
  { intros c. rewrite dom_insert_L. apply elem_of_dom_2 in Hn.
    apply subseteq_union_1_L. by apply singleton_subseteq_l. }
  destruct status; simpl; [case_bool_decide as Hw; simpl|];
    (repeat split; try done);
    try (intros q Hq; by apply lookup_insert_ne).
  intros E Hle. by apply Qclt_not_le in Hw.
Qed.

Lemma SetProps_exact_witness :
  exists m' n', SetProps 1%nat false (mem pool3) = Done m' /\
                m' !! 1%nat = Some n' /\ Active n' = false /\
                weight n' = Q2Qc (1 # 3).
Proof.
  destruct (SetProps_exact (mem pool3) 1%nat (mkNode "http://a" true 1) false)
    as (m' & n' & H & Hl & Ha & Hw & _); [reflexivity|].
  exists m', n'. repeat split; try assumption.
  rewrite (Hw eq_refl). apply Qc_is_canon. reflexivity.
Defined.

(** ** Heap repair: termination, population, weights *)

(** C9. [Heapify] terminates.  From an index within the pool (whose length
    fits Go's [int]), fuel for the distance from the index to the end of the
    pool is enough, because each recursive call is on [2*idx+1] or
    [2*idx+2], strictly further on and still within the pool: the call never
    runs out of fuel, and on a well-formed pool it returns a pool, the same
    for every larger fuel, which is what [Heapify] returns. *)
Theorem Heapify_terminates (s : state) (idx : N) (root : bool) :
  (len s < 2 ^ 63)%N -> (idx < len s)%N ->
  (forall fuel, (N.to_nat (len s - idx) <= fuel)%nat ->
     Heapify_rec fuel idx root s <> OutOfFuel) /\
  (wf s ->
   exists s',
     (forall fuel, (N.to_nat (len s - idx) <= fuel)%nat ->
        Heapify_rec fuel idx root s = Done s') /\
     Heapify idx root s = Done s').
Proof.
  intros Hlen Hidx. split.
  - intros fuel Hfuel. by apply Heapify_rec_not_OutOfFuel.
  - intros W.
    destruct (Heapify_rec_total (N.to_nat (len s - idx)) idx root s W Hlen Hidx)
      as (s' & E); [lia|].
    exists s'. split.
    + intros fuel Hfuel. by eapply Heapify_rec_fuel_mono.
    + unfold Heapify. eapply Heapify_rec_fuel_mono; [|exact E]. unfold len. lia.
Qed.

Lemma Heapify_terminates_witness :
  Heapify_rec 3 0 true pool3 <> OutOfFuel /\
  exists s', Heapify 0 true pool3 = Done s'.
Proof.
  destruct (Heapify_terminates pool3 0 true) as [H1 H2];
    [by vm_compute | by vm_compute |].
  split.
  - apply H1. vm_compute. lia.
  - destruct (H2 ltac:(compute_done)) as (s' & _ & H). by exists s'.
Defined.

(** C10. [Heapify] preserves the population of the pool.  Whatever the index
    and the flag, a call that returns leaves a permutation of the pointers
    the pool held: same length, same nodes with the same multiplicities, and
    no cell of the memory allocated or freed; from an index within a
    well-formed pool the call does return. *)
Theorem Heapify_population (s : state) (idx : N) (root : bool) :
  (forall s', Heapify idx root s = Done s' ->
     nodes s' ≡ₚ nodes s /\ length (nodes s') = length (nodes s) /\
     dom (mem s') = dom (mem s)) /\
  (wf s -> (len s < 2 ^ 63)%N -> (idx < len s)%N ->
   exists s', Heapify idx root s = Done s').
Proof.
  split.
  - intros s' H. unfold Heapify in H.
    pose proof (Heapify_rec_Permutation _ _ _ _ _ H) as P.
    split; [exact P|]. split; [by rewrite P|]. by eapply Heapify_rec_dom.
  - intros W Hlen Hidx. destruct (Heapify_total idx root s W Hlen Hidx) as (s' & E & _).
    by exists s'.
Qed.

Lemma Heapify_population_witness :
  exists s', Heapify 0 true pool3 = Done s' /\ nodes s' ≡ₚ nodes pool3.
Proof.
  destruct (Heapify_population pool3 0 true) as [H1 H2].
  destruct H2 as (s' & E); [compute_done | by vm_compute | by vm_compute |].
  exists s'. split; [exact E|]. by apply H1.
Defined.



(** *** Decay *)






(** ** The dispatcher, step by step *)

Section DispatchFacts.

Variable backend : nat -> string -> bool.

(** The forwarding succeeds: [ServeHTTP] returns, the handler is not called. *)
Lemma ServeHTTP_ok (fuel : nat) (target : string) (r : request) (st : run) :
  backend (sent st) target = true ->
  ServeHTTP backend (S fuel) target r st =
  Done (Run (pool st) (log st ++ [Forward target true]) (S (sent st))).
Proof. intros H. simpl. by rewrite H. Qed.

(** The forwarding fails with retries left: after the delay the same proxy
    is asked again, with the retry counter incremented. *)
Lemma ServeHTTP_retry (fuel : nat) (target : string) (r : request) (st : run) :
  backend (sent st) target = false ->
  (GetRetryFromContext r < 3)%Z ->
  ServeHTTP backend (S fuel) target r st =
  ServeHTTP backend fuel target (WithRetry (GetRetryFromContext r + 1) r)
    (Run (pool st) ((log st ++ [Forward target false]) ++ [Sleep 10]) (S (sent st))).
Proof.
  intros H Hr. simpl. rewrite H. unfold ErrorHandler.
  apply Z.ltb_lt in Hr. by rewrite Hr.
Qed.

(** The forwarding fails with no retry left: the request goes back to
    [loadBalancer] with one more attempt, after the node was marked dead if
    this was attempt 3 or later. *)
Lemma ServeHTTP_failover (fuel : nat) (target : string) (r : request) (st : run) :
  backend (sent st) target = false ->
  (3 <= GetRetryFromContext r)%Z ->
  ServeHTTP backend (S fuel) target r st =
  (let st := Run (pool st)
               ((log st ++ [Forward target false])
                  ++ [LogAttempt (GetAttemptsFromContext r)])
               (S (sent st)) in
   st <- (if (3 <=? GetAttemptsFromContext r)%Z
          then call_SetNodeStatus target false st
          else Done st);;
   loadBalancer backend fuel (WithAttempts (GetAttemptsFromContext r + 1) r) st).
Proof.
  intros H Hr. simpl. rewrite H. unfold ErrorHandler.
  apply Z.ltb_ge in Hr. by rewrite Hr.
Qed.

(** More than three attempts: the request is rejected at once. *)
Lemma loadBalancer_reject (fuel : nat) (r : request) (st : run) :
  (3 < GetAttemptsFromContext r)%Z ->
  loadBalancer backend (S fuel) r st =
  Done (emit (HttpError "Service not available" StatusServiceUnavailable) st).
Proof. intros H. simpl. apply Z.ltb_lt in H. by rewrite H. Qed.

(** Up to three attempts: the root of the pool is served, then repaired. *)
Lemma loadBalancer_select (fuel : nat) (r : request) (st : run) (p : ptr) (c : Node) :
  (GetAttemptsFromContext r <= 3)%Z ->
  nodes (pool st) !! 0%nat = Some p -> p ≠ nil_ptr -> mem (pool st) !! p = Some c ->
  loadBalancer backend (S fuel) r st =
  (st <- ServeHTTP backend fuel (URL c) r st;; call_Heapify 0 true st).
Proof.
  intros H Hp Hnil Hc. simpl. apply Z.ltb_ge in H. rewrite H.
  unfold NextNode, node_at, deref. change (N.to_nat 0) with 0%nat.
  rewrite Hp. simpl. rewrite bool_decide_eq_true_2 by done.
  by rewrite Hc.
Qed.

End DispatchFacts.

(** ** Marking a node *)

Lemma SetProps_Done (m : gmap ptr Node) (p : ptr) (n : Node) (status : bool) :
  m !! p = Some n ->
  SetProps p status m =
  Done (<[p := if negb status then mkNode (URL n) status (weight n / Q2Qc 3)
               else if bool_decide (weight n < 1)
                    then mkNode (URL n) status (weight n * 2)
                    else mkNode (URL n) status (weight n)]> m).
Proof.
  intros Hn. unfold SetProps, deref. rewrite Hn. simpl.
  destruct status; simpl; [|done]. by case_bool_decide.
Qed.

Lemma dom_insert_present (m : gmap ptr Node) (p : ptr) (n : Node) :
  p ∈ dom m -> dom (<[p := n]> m) = dom m.
Proof.
  intros H. rewrite dom_insert_L.
  apply subseteq_union_1_L. by apply singleton_subseteq_l.
Qed.

Lemma SetNodeStatus_loop_total (l : list ptr) (url : string) (status : bool)
    (m : gmap ptr Node) :
  Forall (fun p => p ∈ dom m) l ->
  exists m', SetNodeStatus_loop l url status m = Done m' /\ dom m' = dom m.
Proof.
  induction 1 as [|p l Hp _ IH]; simpl; [by exists m|].
  pose proof Hp as Hp'. apply elem_of_dom in Hp'. destruct Hp' as [c Hc].
  unfold deref. rewrite Hc. simpl.
  destruct (bool_decide (URL c = url)); [|exact IH].
  rewrite (SetProps_Done m p c status Hc).
  eexists. split; [reflexivity|]. by apply dom_insert_present.
Qed.

(** [SetNodeStatus] returns on a well-formed pool and moves no node. *)
Lemma SetNodeStatus_total (url : string) (status : bool) (s : state) :
  wf s ->
  exists s', SetNodeStatus url status s = Done s' /\
             nodes s' = nodes s /\ dom (mem s') = dom (mem s).
Proof.
  intros [Hn _]. unfold SetNodeStatus.
  destruct (SetNodeStatus_loop_total (nodes s) url status (mem s) Hn) as (m' & E & D).
  rewrite E. simpl. eexists. split; [reflexivity|]. by split.
Qed.

(** Asked for the URL of the root, [SetNodeStatus] updates the root itself:
    the loop starts at index 0. *)
Lemma SetNodeStatus_root (status : bool) (s : state) (p : ptr) (c : Node) :
  nodes s !! 0%nat = Some p -> mem s !! p = Some c ->
  SetNodeStatus (URL c) status s =
  (m <- SetProps p status (mem s);; Done (set_mem m s)).
Proof.
  intros Hp Hc. unfold SetNodeStatus.
  destruct (nodes s) as [|q l]; [discriminate|]. injection Hp as ->.
  simpl. unfold deref. rewrite Hc. simpl.
  by rewrite bool_decide_eq_true_2.
Qed.

(** ** Pools the dispatcher runs on *)

Lemma good_transport (s s' : state) :
  good s -> nodes s' ≡ₚ nodes s -> dom (mem s') = dom (mem s) -> good s'.
Proof.
  intros (W & H0 & H63) Hp Hd. split; [by eapply wf_transport|].
  unfold len in *. by rewrite Hp.
Qed.

Lemma good_root (s : state) :
  good s ->
  exists p c, nodes s !! 0%nat = Some p /\ p ≠ nil_ptr /\ mem s !! p = Some c.
Proof.
  intros ([Hn Hnil] & H0 & _).
  destruct (nodes s) as [|p l] eqn:E; [unfold len in H0; rewrite E in H0; simpl in H0; lia|].
  apply Forall_cons in Hn. destruct Hn as [Hp _].
  pose proof Hp as Hp'. apply elem_of_dom in Hp'. destruct Hp' as [c Hc].
  exists p, c. split; [done|]. split; [|done]. intros ->. by apply Hnil.
Qed.

Lemma call_Heapify_total (st : run) :
  good (pool st) ->
  exists st', call_Heapify 0 true st = Done st' /\ good (pool st') /\
              log st' = log st ++ [CallHeapify 0 true] /\ sent st' = sent st.
Proof.
  intros G. pose proof G as (W & H0 & H63).
  destruct (Heapify_total 0 true (pool st) W H63 H0) as (s' & E & W' & L').
  unfold call_Heapify. rewrite E. simpl. eexists. split; [reflexivity|].
  split; [|done]. simpl. unfold Heapify in E. eapply good_transport; [exact G | |].
  - by eapply Heapify_rec_Permutation.
  - by eapply Heapify_rec_dom.
Qed.

Lemma call_SetNodeStatus_total (url : string) (status : bool) (st : run) :
  good (pool st) ->
  exists st', call_SetNodeStatus url status st = Done st' /\ good (pool st') /\
              nodes (pool st') = nodes (pool st) /\
              log st' = log st ++ [CallSetNodeStatus url status] /\
              sent st' = sent st.
Proof.
  intros G. pose proof G as (W & _).
  destruct (SetNodeStatus_total url status (pool st) W) as (s' & E & Hn & Hd).
  unfold call_SetNodeStatus. rewrite E. simpl. eexists. split; [reflexivity|].
  simpl. split; [|done]. eapply good_transport; [exact G | by rewrite Hn | done].
Qed.

(** ** Every request is answered *)

Lemma GetRetry_WithRetry (v : Z) (r : request) :
  GetRetryFromContext (WithRetry v r) = v.
Proof. reflexivity. Qed.

Lemma GetAttempts_WithRetry (v : Z) (r : request) :
  GetAttemptsFromContext (WithRetry v r) = GetAttemptsFromContext r.
Proof. reflexivity. Qed.

Lemma GetAttempts_WithAttempts (v : Z) (r : request) :
  GetAttemptsFromContext (WithAttempts v r) = v.
Proof. reflexivity. Qed.

Lemma GetRetry_WithAttempts (v : Z) (r : request) :
  GetRetryFromContext (WithAttempts v r) = GetRetryFromContext r.
Proof. reflexivity. Qed.

Section DispatchTotal.

Variable backend : nat -> string -> bool.

(** On a good pool both functions return, leave a good pool, and only add to
    the log: [ServeHTTP] starts with the forwarding it was asked for;
    [loadBalancer] either rejects the request, or serves the root and ends
    with the root repair. *)
Lemma dispatch_total (fuel : nat) :
  forall (r : request) (st : run),
    good (pool st) ->
    ((need r <= fuel)%nat ->
     exists st',
       loadBalancer backend fuel r st = Done st' /\ good (pool st') /\
       (((3 < GetAttemptsFromContext r)%Z /\
         log st' = log st ++
           [HttpError "Service not available" StatusServiceUnavailable]) \/
        ((GetAttemptsFromContext r <= 3)%Z /\
         exists p c mid,
           nodes (pool st) !! 0%nat = Some p /\ mem (pool st) !! p = Some c /\
           log st' = log st ++
             Forward (URL c) (backend (sent st) (URL c)) :: mid
               ++ [CallHeapify 0 true]))) /\
    (forall target,
       (GetAttemptsFromContext r <= 3)%Z -> (need r <= S fuel)%nat ->
       exists st' mid,
         ServeHTTP backend fuel target r st = Done st' /\ good (pool st') /\
         log st' = log st ++ Forward target (backend (sent st) target) :: mid).
Proof.
  induction fuel as [|fuel IH]; intros r st G.
  { split; [unfold need; lia|]. intros target Ha Hf. unfold need in Hf. lia. }
  split.
  - intros Hf.
    destruct (Z.lt_ge_cases 3 (GetAttemptsFromContext r)) as [Ha | Ha].
    + rewrite loadBalancer_reject by done. eexists. split; [reflexivity|].
      split; [exact G|]. left. by split.
    + destruct (good_root _ G) as (p & c & Hp & Hnil & Hc).
      rewrite (loadBalancer_select backend fuel r st p c Ha Hp Hnil Hc).
      destruct (IH r st G) as [_ Hsv].
      destruct (Hsv (URL c) Ha) as (st1 & mid & E1 & G1 & L1); [lia|].
      rewrite E1. simpl.
      destruct (call_Heapify_total st1 G1) as (st' & E' & G' & L' & _).
      exists st'. split; [exact E'|]. split; [exact G'|]. right.
      split; [exact Ha|]. exists p, c, mid. split; [exact Hp|]. split; [exact Hc|].
      rewrite L', L1. by rewrite <- app_assoc.
  - intros target Ha Hf.
    destruct (backend (sent st) target) eqn:Hb.
    + rewrite ServeHTTP_ok by done. eexists _, []. split; [reflexivity|].
      split; [exact G | done].
    + destruct (Z.lt_ge_cases (GetRetryFromContext r) 3) as [Hr | Hr].
      * rewrite ServeHTTP_retry by done.
        set (st1 := Run _ _ _). set (r1 := WithRetry _ r).
        destruct (IH r1 st1 G) as [_ Hsv].
        destruct (Hsv target) as (st' & mid & E' & G' & L').
        { exact Ha. }
        { unfold need in *. subst r1.
          rewrite GetRetry_WithRetry, GetAttempts_WithRetry. lia. }
        exists st'. eexists. split; [exact E'|]. split; [exact G'|].
        rewrite L'. subst st1. simpl. rewrite <- !app_assoc. reflexivity.
      * rewrite ServeHTTP_failover by done. cbv zeta.
        set (st1 := Run _ _ _). set (r1 := WithAttempts _ r).
        assert (exists st2 evs, (if (3 <=? GetAttemptsFromContext r)%Z
                                 then call_SetNodeStatus target false st1
                                 else Done st1) = Done st2 /\
                                good (pool st2) /\ log st2 = log st1 ++ evs)
          as (st2 & evs & E2 & G2 & L2).
        { destruct (3 <=? GetAttemptsFromContext r)%Z.
          - destruct (call_SetNodeStatus_total target false st1 G)
              as (st2 & E2 & G2 & _ & L2 & _).
            by exists st2, [CallSetNodeStatus target false].
          - exists st1, []. split; [done|]. split; [exact G|].
            by rewrite app_nil_r. }
        rewrite E2. simpl.
        destruct (IH r1 st2 G2) as [Hlb _].
        destruct Hlb as (st' & E' & G' & C').
        { unfold need in *. subst r1.
          rewrite GetRetry_WithAttempts, GetAttempts_WithAttempts. lia. }
        exists st'. 
        assert (exists evs', log st' = log st2 ++ evs') as (evs' & L').
        { destruct C' as [[_ L'] | (_ & p & c & mid & _ & _ & L')]; eauto. }
        eexists. split; [exact E'|]. split; [exact G'|].
        rewrite L', L2. subst st1. simpl. rewrite <- !app_assoc. reflexivity.
Qed.

End DispatchTotal.

(** ** The fuel of the dispatcher is only a bound *)

Section DispatchFuel.

Variable backend : nat -> string -> bool.

Lemma loadBalancer_S (fuel : nat) (r : request) (st : run) :
  loadBalancer backend (S fuel) r st =
  (if (3 <? GetAttemptsFromContext r)%Z then
     Done (emit (HttpError "Service not available" StatusServiceUnavailable) st)
   else
     node <- NextNode (pool st);;
     if bool_decide (node ≠ nil_ptr) then
       c <- deref (mem (pool st)) node;;
       st <- ServeHTTP backend fuel (URL c) r st;;
       call_Heapify 0 true st
     else
       Done (emit (HttpError "Downtime: No nodes available"
                     StatusServiceUnavailable) st)).
Proof. reflexivity. Qed.

Lemma ServeHTTP_S (fuel : nat) (target : string) (r : request) (st : run) :
  ServeHTTP backend (S fuel) target r st =
  (let ok := backend (sent st) target in
   let st := Run (pool st) (log st ++ [Forward target ok]) (S (sent st)) in
   if ok then Done st
   else ErrorHandler (ServeHTTP backend fuel) (loadBalancer backend fuel) target r st).
Proof. reflexivity. Qed.

Lemma dispatch_fuel_S (fuel : nat) :
  (forall r st, refines (loadBalancer backend fuel r st)
                        (loadBalancer backend (S fuel) r st)) /\
  (forall target r st, refines (ServeHTTP backend fuel target r st)
                               (ServeHTTP backend (S fuel) target r st)).
Proof.
  induction fuel as [|fuel [IHlb IHsv]]; [split; intros; by left|].
  split.
  - intros r st. rewrite (loadBalancer_S (S fuel)), (loadBalancer_S fuel).
    destruct (3 <? GetAttemptsFromContext r)%Z; [apply refines_refl|].
    apply bind_refines; [apply refines_refl | intros node].
    apply if_refines; [|apply refines_refl].
    apply bind_refines; [apply refines_refl | intros c].
    apply bind_refines; [apply IHsv | intros st1]. apply refines_refl.
  - intros target r st. rewrite (ServeHTTP_S (S fuel)), (ServeHTTP_S fuel).
    cbv zeta. apply if_refines; [apply refines_refl|].
    unfold ErrorHandler.
    destruct (GetRetryFromContext r <? 3)%Z; [apply IHsv|].
    apply bind_refines; [apply refines_refl | intros st1]. apply IHlb.
Qed.

(** A request that is answered with some fuel is answered the same with
    more. *)
Lemma loadBalancer_fuel_mono (fuel fuel' : nat) (r : request) (st st' : run) :
  (fuel <= fuel')%nat ->
  loadBalancer backend fuel r st = Done st' ->
  loadBalancer backend fuel' r st = Done st'.
Proof.
  induction 1 as [|fuel' Hle IH]; intros H; [exact H|].
  destruct (proj1 (dispatch_fuel_S fuel') r st) as [E | E].
  - rewrite IH in E by exact H. discriminate.
  - rewrite <- E. by apply IH.
Qed.

End DispatchFuel.

(** ** Requests against a backend that keeps failing *)

Section Failing.

Variable backend : nat -> string -> bool.

(** A request that has not been retried yet, on a backend that fails three
    times: three retries of the same proxy, 10 ms apart. *)
Lemma three_retries (fuel : nat) (u : string) (r : request) (st : run) :
  GetRetryFromContext r = 0%Z ->
  backend (sent st) u = false ->
  backend (S (sent st)) u = false ->
  backend (S (S (sent st))) u = false ->
  ServeHTTP backend (S (S (S fuel))) u r st =
  ServeHTTP backend fuel u (WithRetry 3 (WithRetry 2 (WithRetry 1 r)))
    (Run (pool st)
         (log st ++ [Forward u false; Sleep 10; Forward u false; Sleep 10;
                     Forward u false; Sleep 10])
         (S (S (S (sent st))))).
Proof.
  intros Hr H0 H1 H2.
  rewrite ServeHTTP_retry by (done || lia). rewrite Hr.
  rewrite ServeHTTP_retry by (done || (rewrite GetRetry_WithRetry; lia)).
  rewrite GetRetry_WithRetry.
  rewrite ServeHTTP_retry by (done || (rewrite GetRetry_WithRetry; lia)).
  rewrite GetRetry_WithRetry. cbn [pool log sent].
  rewrite <- !app_assoc. reflexivity.
Qed.

(** With no retry left and fewer than three attempts, a failure sends the
    request back to [loadBalancer], which selects the root again. *)
Lemma failover_select (fuel : nat) (u : string) (r : request) (st : run)
    (p : ptr) (c : Node) :
  (3 <= GetRetryFromContext r)%Z -> (GetAttemptsFromContext r < 3)%Z ->
  backend (sent st) u = false ->
  nodes (pool st) !! 0%nat = Some p -> p ≠ nil_ptr -> mem (pool st) !! p = Some c ->
  ServeHTTP backend (S (S fuel)) u r st =
  (st <- ServeHTTP backend fuel (URL c)
           (WithAttempts (GetAttemptsFromContext r + 1) r)
           (Run (pool st)
                (log st ++ [Forward u false; LogAttempt (GetAttemptsFromContext r)])
                (S (sent st)));;
   call_Heapify 0 true st).
Proof.
  intros Hr Ha Hb Hp Hnil Hc.
  rewrite ServeHTTP_failover by done. cbv zeta.
  rewrite (proj2 (Z.leb_gt _ _)) by lia. cbn [bind].
  rewrite (loadBalancer_select backend fuel _ _ p c) by
    (done || (rewrite GetAttempts_WithAttempts; lia)).
  rewrite <- app_assoc. reflexivity.
Qed.

(** The third attempt fails: the node is marked dead and the request, now at
    its fourth attempt, is rejected. *)
Lemma failover_reject (fuel : nat) (u : string) (r : request) (st : run) :
  (3 <= GetRetryFromContext r)%Z -> (3 <= GetAttemptsFromContext r)%Z ->
  backend (sent st) u = false ->
  ServeHTTP backend (S (S fuel)) u r st =
  (st <- call_SetNodeStatus u false
           (Run (pool st)
                (log st ++ [Forward u false; LogAttempt (GetAttemptsFromContext r)])
                (S (sent st)));;
   Done (emit (HttpError "Service not available" StatusServiceUnavailable) st)).
Proof.
  intros Hr Ha Hb.
  rewrite ServeHTTP_failover by done. cbv zeta.
  rewrite (proj2 (Z.leb_le _ _)) by lia.
  rewrite <- app_assoc. cbn [app].
  destruct (call_SetNodeStatus u false _) as [st1| |]; cbn [bind]; try reflexivity.
  apply loadBalancer_reject. rewrite GetAttempts_WithAttempts. lia.
Qed.

End Failing.

(** A call keeps the URL and the activity of every node, and leaves its
    weight or halves it. *)
Lemma Heapify_rec_cell (fuel : nat) (idx : N) (root : bool)
    (s s' : state) (q : ptr) (m : Node) :
  (len s < 2 ^ 63)%N ->
  Heapify_rec fuel idx root s = Done s' ->
  mem s !! q = Some m ->
  exists m', mem s' !! q = Some m' /\ URL m' = URL m /\ Active m' = Active m /\
             (weight m' = weight m \/ weight m' = weight m / 2).
Proof.
  intros Hlen H Hq. destruct root.
  - destruct fuel as [|fuel]; [discriminate|].
    pose proof H as H'. apply Heapify_rec_inv in H'.
    destruct H' as (s1 & _ & _ & _ & _ & _ & _ & H1 & _).
    apply update_weight_Done in H1. destruct H1 as (p & n & Hp & Hn & _).
    assert (idx < len s)%N as Hidx.
    { apply lookup_lt_Some in Hp. unfold len. lia. }
    destruct (Heapify_rec_root _ _ _ _ _ p n Hlen Hidx H Hp Hn)
      as [(_ & _ & ->) | (_ & _ & ->)]; [|exists m; auto].
    simpl. destruct (decide (p = q)) as [-> | Hne].
    + rewrite lookup_insert_eq. eexists. split; [reflexivity|].
      simplify_eq. simpl. auto.
    + rewrite lookup_insert_ne by done. exists m. auto.
  - rewrite (Heapify_rec_mem _ _ _ _ H). exists m. auto.
Qed.

Lemma call_Heapify_cell (st st' : run) (q : ptr) (m : Node) :
  (len (pool st) < 2 ^ 63)%N ->
  call_Heapify 0 true st = Done st' ->
  mem (pool st) !! q = Some m ->
  exists m', mem (pool st') !! q = Some m' /\ URL m' = URL m /\
             Active m' = Active m.
Proof.
  intros Hlen H Hq. unfold call_Heapify in H. inv_done.
  match goal with H : Heapify _ _ _ = Done _ |- _ => unfold Heapify in H;
    destruct (Heapify_rec_cell _ _ _ _ _ q m Hlen H Hq) as (m' & ? & ? & ? & _) end.
  exists m'. auto.
Qed.

Section AllFail.

Variable backend : nat -> string -> bool.

(** The whole run of a fresh request whose backend, the root of the pool,
    fails every time. *)
Lemma all_fail_run (s : state) (p : ptr) (c : Node) :
  good s -> nodes s !! 0%nat = Some p -> mem s !! p = Some c ->
  (forall k, backend k (URL c) = false) ->
  exists s1 st',
    SetNodeStatus (URL c) false s = Done s1 /\
    nodes s1 = nodes s /\
    mem s1 = <[p := mkNode (URL c) false (weight c / Q2Qc 3)]> (mem s) /\
    handle backend fresh s = Done st' /\
    log st' =
      [Forward (URL c) false; Sleep 10; Forward (URL c) false; Sleep 10;
       Forward (URL c) false; Sleep 10; Forward (URL c) false; LogAttempt 1;
       Forward (URL c) false; LogAttempt 2;
       Forward (URL c) false; LogAttempt 3;
       CallSetNodeStatus (URL c) false;
       HttpError "Service not available" StatusServiceUnavailable;
       CallHeapify 0 true; CallHeapify 0 true; CallHeapify 0 true] /\
    exists c', mem (pool st') !! p = Some c' /\ Active c' = false.
Proof.
  intros G Hp Hc Hb.
  destruct (good_root s G) as (p' & c' & Hp' & Hnil & Hc').
  rewrite Hp in Hp'. injection Hp' as <-. clear c' Hc'.
  pose proof (SetNodeStatus_root false s p c Hp Hc) as Hs.
  rewrite (SetProps_Done _ _ _ false Hc) in Hs. cbn [bind negb] in Hs.
  eexists. 
  unfold handle. change (enough fresh) with 11%nat.
  rewrite (loadBalancer_select backend 10 fresh _ p c) by (done || (cbn; lia)).
  rewrite three_retries by (done || apply Hb). cbn [pool log sent app].
  rewrite (failover_select backend 5 _ _ _ p c) by (done || apply Hb || (cbn; lia)).
  cbn [pool log sent app].
  change (GetAttemptsFromContext (WithRetry 3 (WithRetry 2 (WithRetry 1 fresh))))
    with 1%Z. change (1 + 1)%Z with 2%Z.
  rewrite (failover_select backend 3 _ _ _ p c) by (done || apply Hb || (cbn; lia)).
  cbn [pool log sent app].
  rewrite GetAttempts_WithAttempts. change (2 + 1)%Z with 3%Z.
  rewrite failover_reject by (done || apply Hb || (cbn; lia)).
  cbn [pool log sent app].
  rewrite GetAttempts_WithAttempts.
  unfold call_SetNodeStatus at 1. cbn [pool log sent]. rewrite Hs. cbn [bind].
  set (s1 := set_mem _ s) in *.
  assert (good s1) as G1.
  { eapply good_transport; [exact G | done |]. subst s1. simpl.
    apply dom_insert_present. by eapply elem_of_dom_2. }
  set (st1 := emit _ _).
  destruct (call_Heapify_total st1 G1) as (st2 & E2 & G2 & L2 & _).
  rewrite E2. cbn [bind].
  destruct (call_Heapify_total st2 G2) as (st3 & E3 & G3 & L3 & _).
  rewrite E3. cbn [bind].
  destruct (call_Heapify_total st3 G3) as (st4 & E4 & G4 & L4 & _).
  rewrite E4.
  exists st4. split; [reflexivity|]. split; [done|]. split; [done|].
  split; [reflexivity|]. split.
  - rewrite L4, L3, L2. subst st1. reflexivity.
  - assert (mem (pool st1) !! p = Some (mkNode (URL c) false (weight c / Q2Qc 3)))
      as H1 by (subst st1 s1; simpl; apply lookup_insert_eq).
    destruct (call_Heapify_cell st1 st2 p _ (proj2 (proj2 G1)) E2 H1)
      as (c2 & H2 & _ & A2).
    destruct (call_Heapify_cell st2 st3 p _ (proj2 (proj2 G2)) E3 H2)
      as (c3 & H3 & _ & A3).
    destruct (call_Heapify_cell st3 st4 p _ (proj2 (proj2 G3)) E4 H3)
      as (c4 & H4 & _ & A4).
    exists c4. split; [exact H4|]. by rewrite A4, A3, A2.
Qed.

End AllFail.

(** ** Retry and failover *)

(** C8. Retry bound.  While a request has been retried fewer than three
    times, a failed forwarding is followed by the 10 ms delay and by a new
    forwarding through the same proxy, with the retry counter incremented and
    no new selection.  So for a fresh request whose node fails three times in
    a row: if the fourth forwarding succeeds, the log is the three failures,
    each followed by the delay, the success on the same node, and the root
    repair; if the fourth fails too, the failover ([LogAttempt 1]) comes right
    after it, that is after exactly three retries of the same node. *)
Theorem retry_bound (backend : nat -> string -> bool) :
  (forall fuel target r st,
     backend (sent st) target = false -> (GetRetryFromContext r < 3)%Z ->
     ServeHTTP backend (S fuel) target r st =
     ServeHTTP backend fuel target (WithRetry (GetRetryFromContext r + 1) r)
       (Run (pool st) (log st ++ [Forward target false; Sleep 10]) (S (sent st)))) /\
  (forall s p c,
     good s -> nodes s !! 0%nat = Some p -> mem s !! p = Some c ->
     backend 0%nat (URL c) = false -> backend 1%nat (URL c) = false ->
     backend 2%nat (URL c) = false ->
     (backend 3%nat (URL c) = true ->
      exists st', handle backend fresh s = Done st' /\
        log st' =
          [Forward (URL c) false; Sleep 10; Forward (URL c) false; Sleep 10;
           Forward (URL c) false; Sleep 10; Forward (URL c) true;
           CallHeapify 0 true]) /\
     (backend 3%nat (URL c) = false ->
      exists st' rest, handle backend fresh s = Done st' /\
        log st' =
          [Forward (URL c) false; Sleep 10; Forward (URL c) false; Sleep 10;
           Forward (URL c) false; Sleep 10; Forward (URL c) false;
           LogAttempt 1] ++ rest)).
Proof.
  split.
  - intros fuel target r st Hb Hr. rewrite ServeHTTP_retry by done.
    by rewrite <- app_assoc.
  - intros s p c G Hp Hc H0 H1 H2.
    destruct (good_root s G) as (p' & c' & Hp' & Hnil & Hc').
    rewrite Hp in Hp'. injection Hp' as <-. clear c' Hc'.
    assert (handle backend fresh s =
            (st <- ServeHTTP backend 7 (URL c)
                     (WithRetry 3 (WithRetry 2 (WithRetry 1 fresh)))
                     (Run s [Forward (URL c) false; Sleep 10;
                             Forward (URL c) false; Sleep 10;
                             Forward (URL c) false; Sleep 10] 3);;
             call_Heapify 0 true st)) as E.
    { unfold handle. change (enough fresh) with 11%nat.
      rewrite (loadBalancer_select backend 10 fresh _ p c) by (done || (cbn; lia)).
      by rewrite three_retries by done. }
    rewrite E. clear E. split; intros H3.
    + rewrite ServeHTTP_ok by done. cbn [bind pool log sent app].
      set (st1 := Run _ _ _).
      destruct (call_Heapify_total st1 G) as (st' & E' & _ & L' & _).
      exists st'. split; [exact E'|]. rewrite L'. reflexivity.
    + rewrite ServeHTTP_failover by (done || (cbn; lia)). cbv zeta.
      cbn [pool log sent app]. 
      change (GetAttemptsFromContext (WithRetry 3 (WithRetry 2 (WithRetry 1 fresh))))
        with 1%Z.
      change (3 <=? 1)%Z with false. cbn [bind].
      set (st1 := Run _ _ _). set (r1 := WithAttempts _ _).
      destruct (dispatch_total backend 6 r1 st1 G) as [Hlb _].
      destruct Hlb as (st2 & E2 & G2 & C2); [subst r1; vm_compute; lia|].
      rewrite E2. cbn [bind].
      destruct (call_Heapify_total st2 G2) as (st' & E' & _ & L' & _).
      assert (exists evs, log st2 = log st1 ++ evs) as (evs & L2).
      { destruct C2 as [[_ L2] | (_ & q & d & mid & _ & _ & L2)]; eauto. }
      exists st', (evs ++ [CallHeapify 0 true]). split; [exact E'|].
      rewrite L', L2. subst st1. cbn [log]. by rewrite <- !app_assoc.
Qed.

Lemma retry_bound_witness :
  exists st', handle (fun k _ => bool_decide (k = 3%nat)) fresh pool3 = Done st' /\
    log st' =
      [Forward "http://a" false; Sleep 10; Forward "http://a" false; Sleep 10;
       Forward "http://a" false; Sleep 10; Forward "http://a" true;
       CallHeapify 0 true].
Proof.
  destruct (retry_bound (fun k _ => bool_decide (k = 3%nat))) as [_ H].
  destruct (H pool3 1%nat (mkNode "http://a" true 1)) as [H3 _];
    [compute_done | reflexivity | reflexivity | reflexivity | reflexivity
    | reflexivity |].
  exact (H3 eq_refl).
Defined.

(** ** Root repair and the outcome of the forwarding *)

(** C2, as the code has it.  A request with at most three attempts, on a
    good pool: [loadBalancer] forwards it through the proxy of the root and,
    once that call has returned, calls [Heapify(0, true)], which is the last
    thing it does.  When the forwarding succeeds the repair follows it
    directly; when it fails the repair follows the retries and failovers all
    the same.  Only a request with more than three attempts, which is
    rejected, triggers no repair. *)
Theorem root_repair_after_forwarding (backend : nat -> string -> bool)
    (fuel : nat) (r : request) (st : run) :
  good (pool st) -> (need r <= fuel)%nat ->
  ((GetAttemptsFromContext r <= 3)%Z ->
   exists st' p c mid,
     loadBalancer backend fuel r st = Done st' /\
     nodes (pool st) !! 0%nat = Some p /\ mem (pool st) !! p = Some c /\
     log st' = log st ++
       Forward (URL c) (backend (sent st) (URL c)) :: mid ++ [CallHeapify 0 true] /\
     (backend (sent st) (URL c) = true -> mid = [])) /\
  ((3 < GetAttemptsFromContext r)%Z ->
   loadBalancer backend fuel r st =
   Done (Run (pool st)
             (log st ++ [HttpError "Service not available" StatusServiceUnavailable])
             (sent st))).
Proof.
  intros G Hf. split.
  - intros Ha.
    destruct (good_root _ G) as (p & c & Hp & Hnil & Hc).
    destruct (backend (sent st) (URL c)) eqn:Hb.
    + destruct fuel as [|[|fuel]]; [unfold need in Hf; lia | unfold need in Hf; lia |].
      rewrite (loadBalancer_select backend (S fuel) r st p c Ha Hp Hnil Hc).
      rewrite ServeHTTP_ok by done. cbn [bind].
      set (st1 := Run _ _ _).
      destruct (call_Heapify_total st1 G) as (st' & E' & _ & L' & _).
      exists st', p, c, []. split; [exact E'|]. split; [exact Hp|]. split; [exact Hc|].
      split; [|done]. rewrite L'. subst st1. cbn [log app]. by rewrite Hb, <- app_assoc.
    + destruct (dispatch_total backend fuel r st G) as [Hlb _].
      destruct (Hlb Hf) as (st' & E' & _ & [[Hgt _] | (_ & p' & c' & mid & Hp' & Hc' & L')]);
        [lia|].
      rewrite Hp in Hp'. injection Hp' as <-. rewrite Hc in Hc'. injection Hc' as <-.
      exists st', p, c, mid. repeat split; try done. congruence.
  - intros Ha. destruct fuel as [|fuel]; [unfold need in Hf; lia|].
    by rewrite loadBalancer_reject.
Qed.

Lemma root_repair_after_forwarding_witness :
  exists st' mid,
    loadBalancer (fun _ _ => false) 11 fresh (Run pool1 [] 0) = Done st' /\
    log st' = Forward "http://a" false :: mid ++ [CallHeapify 0 true].
Proof.
  destruct (root_repair_after_forwarding (fun _ _ => false) 11 fresh (Run pool1 [] 0))
    as [H _]; [compute_done | vm_compute; lia |].
  destruct H as (st' & p & c & mid & E & Hp & Hc & L & _); [by vm_compute|].
  exists st', mid. split; [exact E|].
  cbn in Hp. injection Hp as <-. cbn in Hc. injection Hc as <-. exact L.
Defined.

(** C2 as stated fails: a request whose every forwarding fails still triggers
    the root repair, three times, although no forwarding succeeded. *)
Lemma root_repair_without_success :
  exists st',
    handle (fun _ _ => false) fresh pool1 = Done st' /\
    log st' =
      [Forward "http://a" false; Sleep 10; Forward "http://a" false; Sleep 10;
       Forward "http://a" false; Sleep 10; Forward "http://a" false; LogAttempt 1;
       Forward "http://a" false; LogAttempt 2;
       Forward "http://a" false; LogAttempt 3;
       CallSetNodeStatus "http://a" false;
       HttpError "Service not available" 503;
       CallHeapify 0 true; CallHeapify 0 true; CallHeapify 0 true] /\
    (forall u, Forward u true ∉ log st') /\
    CallHeapify 0 true ∈ log st' /\
    view (pool st') = [Some ("http://a", false, (1 # 24)%Q)].
Proof.
  eexists. split; [by vm_compute|]. cbn [log pool].
  split; [reflexivity|]. split; [|split; [|by vm_compute]].
  - intros u H. repeat (apply elem_of_cons in H; destruct H as [H | H];
      [discriminate|]). by apply elem_of_nil in H.
  - apply list_elem_of_In. simpl. tauto.
Qed.

(** ** No active node *)

(** C3, evaluated on the code.  After a health check that found the only
    backend unreachable, the pool has no active node; a request that arrives
    once the backend is reachable again is forwarded to that inactive node
    and answered by it: no service-unavailable response is produced.  And on
    an empty pool [NextNode] indexes [np.nodes[0]] out of range: the handler
    panics instead of answering. *)
Theorem no_active_node_is_served :
  (exists s0 st',
     HealthCheck (fun _ => false) pool1 = Done s0 /\
     view s0 = [Some ("http://a", false, (1 # 3)%Q)] /\
     handle (fun _ _ => true) fresh s0 = Done st' /\
     log st' = [Forward "http://a" true; CallHeapify 0 true]) /\
  (forall backend, handle backend fresh (State ∅ []) = Panic).
Proof.
  split.
  - eexists _, _. split; [by vm_compute|]. split; [by vm_compute|].
    split; [by vm_compute|]. reflexivity.
  - intros backend. reflexivity.
Qed.

(** ** Three failovers *)

(** C7, as the code has it.  A fresh request whose node, the root, fails
    every forwarding: after the three retries the request fails over three
    times on the same root; at the third failover, [attempts] being 3, the
    root is marked inactive by [SetNodeStatus], which divides its weight by
    three and moves no node; the request is then rejected with status 503 and
    forwarded no more.  No [Heapify(i, false)] is issued for the marked node:
    what follows the rejection is the root repair [Heapify(0, true)] of each
    of the three [loadBalancer] calls as they return, and the node is still
    inactive at the end. *)
Theorem attempts_ceiling (backend : nat -> string -> bool)
    (s : state) (p : ptr) (c : Node) :
  good s -> nodes s !! 0%nat = Some p -> mem s !! p = Some c ->
  (forall k, backend k (URL c) = false) ->
  exists s1 st',
    SetNodeStatus (URL c) false s = Done s1 /\
    nodes s1 = nodes s /\
    mem s1 = <[p := mkNode (URL c) false (weight c / Q2Qc 3)]> (mem s) /\
    handle backend fresh s = Done st' /\
    log st' =
      [Forward (URL c) false; Sleep 10; Forward (URL c) false; Sleep 10;
       Forward (URL c) false; Sleep 10; Forward (URL c) false; LogAttempt 1;
       Forward (URL c) false; LogAttempt 2;
       Forward (URL c) false; LogAttempt 3;
       CallSetNodeStatus (URL c) false;
       HttpError "Service not available" StatusServiceUnavailable;
       CallHeapify 0 true; CallHeapify 0 true; CallHeapify 0 true] /\
    exists c', mem (pool st') !! p = Some c' /\ Active c' = false.
Proof. apply all_fail_run. Qed.

Lemma attempts_ceiling_witness :
  exists s1 st',
    SetNodeStatus "http://a" false pool2 = Done s1 /\ nodes s1 = nodes pool2 /\
    handle (fun _ _ => false) fresh pool2 = Done st' /\
    exists c', mem (pool st') !! 1%nat = Some c' /\ Active c' = false.
Proof.
  destruct (attempts_ceiling (fun _ _ => false) pool2 1%nat (mkNode "http://a" true 1))
    as (s1 & st' & E1 & N1 & _ & E & _ & H);
    [compute_done | reflexivity | reflexivity | reflexivity |].
  exists s1, st'.
  split; [exact E1|]. split; [exact N1|]. split; [exact E|]. exact H.
Defined.

(** C7 as stated fails: marking the root dead repairs nothing.  On the pool
    of two backends the marked node stays at index 0, lighter than its active
    child, where the health monitor's [Heapify(0, false)] would have swapped
    them; and in the run of the failing request no [Heapify(i, false)] is
    called at all. *)
Lemma marking_without_repair :
  exists s1 s2 st',
    SetNodeStatus "http://a" false pool2 = Done s1 /\
    view s1 = [Some ("http://a", false, (1 # 3)%Q); Some ("http://b", true, 1%Q)] /\
    ~ dominates s1 0 /\
    Heapify 0 false s1 = Done s2 /\
    view s2 = [Some ("http://b", true, 1%Q); Some ("http://a", false, (1 # 3)%Q)] /\
    handle (fun _ _ => false) fresh pool2 = Done st' /\
    log st' =
      [Forward "http://a" false; Sleep 10; Forward "http://a" false; Sleep 10;
       Forward "http://a" false; Sleep 10; Forward "http://a" false; LogAttempt 1;
       Forward "http://a" false; LogAttempt 2;
       Forward "http://a" false; LogAttempt 3;
       CallSetNodeStatus "http://a" false;
       HttpError "Service not available" 503;
       CallHeapify 0 true; CallHeapify 0 true; CallHeapify 0 true] /\
    (forall i, CallHeapify i false ∉ log st').
Proof.
  eexists _, _, _. split; [by vm_compute|]. split; [by vm_compute|].
  split.
  { intros Hd.
    assert (weight (mkNode "http://b" true 1)
            <= weight (mkNode "http://a" false (Q2Qc (1 # 3)))) as Hle.
    { apply (Hd 1%N); [by left | by vm_compute | by vm_compute | reflexivity]. }
    apply Qcle_not_lt in Hle. apply Hle. by vm_compute. }
  split; [by vm_compute|]. split; [by vm_compute|].
  split; [by vm_compute|]. cbn [log]. split; [reflexivity|].
  intros i H. repeat (apply elem_of_cons in H; destruct H as [H | H];
    [discriminate|]). by apply elem_of_nil in H.
Qed.

(** ** The heap order *)


Lemma cell_Swap (i j : N) (s s' : state) :
  Swap i j s = Done s' -> i ≠ j ->
  cell s' j = cell s i /\ cell s' i = cell s j /\
  forall k, k ≠ i -> k ≠ j -> cell s' k = cell s k.
Proof.
  intros H Hne. destruct (Swap_lookup _ _ _ _ H) as (Sj & Si & Sm).
  unfold cell. rewrite Sm, Sj, (Si Hne). split; [done|]. split; [done|].
  intros k Hi Hj. by rewrite (Swap_lookup_ne _ _ _ _ _ H Hi Hj).
Qed.

Lemma cell_frame (fuel : nat) (c : N) (s s' : state) (k : N) :
  (len s < 2 ^ 63)%N -> (c < len s)%N ->
  Heapify_rec fuel c false s = Done s' ->
  ~ below c k -> cell s' k = cell s k.
Proof.
  intros Hlen Hc H Hk. unfold cell.
  rewrite (Heapify_rec_mem _ _ _ _ H).
  by rewrite (Heapify_rec_frame fuel c false s s' Hlen Hc H k Hk).
Qed.

(** Where every position from [idx] on dominates its active children, a call
    at [idx] changes nothing. *)
Lemma Heapify_rec_ordered_id (fuel : nat) :
  forall (idx : N) (s s' : state),
    (len s < 2 ^ 63)%N -> (idx < len s)%N ->
    (forall i, (idx <= i)%N -> dominates s i) ->
    Heapify_rec fuel idx false s = Done s' -> s' = s.
Proof.
  induction fuel as [|fuel IH]; intros idx s s' Hlen Hidx Hd H; [discriminate|].
  apply Heapify_rec_cases in H; [|done|done].
  destruct H as (s1 & b1 & b2 & s2 & b3 & s3 & b4 & H1 & Hb1 & Hb2 & H2 & Hb3 & H3 & Hb4 & H4).
  injection H1 as <-.
  assert (b1 = false) as ->.
  { destruct b1; [|done]. apply child_wins_true in Hb1.
    destruct Hb1 as (nc & ni & Hnc & Hni & Ha & Hlt).
    pose proof (Hd idx ltac:(lia) (2 * idx + 1)%N ni nc (or_introl eq_refl) Hni Hnc Ha).
    by apply Qclt_not_le in Hlt. }
  assert (b2 = false) as ->.
  { destruct b2; [|done]. apply child_wins_true in Hb2.
    destruct Hb2 as (nc & ni & Hnc & Hni & Ha & Hlt).
    pose proof (Hd idx ltac:(lia) (2 * idx + 2)%N ni nc (or_intror eq_refl) Hni Hnc Ha).
    by apply Qclt_not_le in Hlt. }
  destruct H2 as [(_ & _ & ->) | (c & sb & _ & [? | ?] & _)]; [|done|done].
  assert (s3 = s) as ->.
  { destruct b3; [|by injection H3]. apply low_weight_true_lt in Hb3.
    eapply (IH (2 * idx + 1)%N s); [done | done | | done].
    intros i Hi. apply Hd. lia. }
  destruct b4; [|by injection H4]. apply low_weight_true_lt in Hb4.
  eapply (IH (2 * idx + 2)%N s); [done | done | | done].
  intros i Hi. apply Hd. lia.
Qed.

(** The child the comparisons select is active, heavier than the node at
    [idx], and at least as heavy as the other active child. *)
Lemma winner_facts (s : state) (idx : N) (b1 b2 : bool) (c : N) :
  child_wins s (2 * idx + 1) idx = Done b1 ->
  child_wins s (2 * idx + 2) (if b1 then 2 * idx + 1 else idx)%N = Done b2 ->
  b1 = true \/ b2 = true ->
  c = (if b2 then 2 * idx + 2 else 2 * idx + 1)%N ->
  exists nc ni,
    cell s c = Some nc /\ cell s idx = Some ni /\ Active nc = true /\
    weight ni < weight nc /\
    forall c' nc', (c' = 2 * idx + 1 \/ c' = 2 * idx + 2)%N ->
      cell s c' = Some nc' -> Active nc' = true -> weight nc' <= weight nc.
Proof.
  intros Hb1 Hb2 Hb ->. destruct b2.
  - apply child_wins_true in Hb2. destruct Hb2 as (nr & nl & Hnr & Hnl & Har & Hlt).
    destruct b1.
    + apply child_wins_true in Hb1. destruct Hb1 as (nl' & ni & Hnl' & Hni & Hal & Hlt').
      rewrite Hnl in Hnl'. injection Hnl' as <-.
      exists nr, ni. repeat split; try done.
      * by apply Qclt_trans with (weight nl).
      * intros c' nc' [-> | ->] Hc' Ha'.
        -- rewrite Hnl in Hc'. injection Hc' as <-. by apply Qclt_le_weak.
        -- rewrite Hnr in Hc'. injection Hc' as <-. apply Qcle_refl.
    + exists nr, nl. repeat split; try done.
      intros c' nc' [-> | ->] Hc' Ha'.
      * apply Qcle_trans with (weight nl); [|by apply Qclt_le_weak].
        by eapply (child_wins_false s (2 * idx + 1) idx).
      * rewrite Hnr in Hc'. injection Hc' as <-. apply Qcle_refl.
  - destruct Hb as [-> | ?]; [|done].
    apply child_wins_true in Hb1. destruct Hb1 as (nl & ni & Hnl & Hni & Hal & Hlt).
    exists nl, ni. repeat split; try done.
    intros c' nc' [-> | ->] Hc' Ha'.
    + rewrite Hnl in Hc'. injection Hc' as <-. apply Qcle_refl.
    + by eapply (child_wins_false s (2 * idx + 2) (2 * idx + 1)).
Qed.






(** Halving the node at [idx] changes no other cell of a pool without
    duplicates. *)
Lemma cell_halved (s s1 : state) (idx k : N) :
  NoDup (nodes s) ->
  update_weight (fun w => w / 2) idx s = Done s1 ->
  k ≠ idx -> cell s1 k = cell s k.
Proof.
  intros Hnd H Hk. apply update_weight_Done in H.
  destruct H as (p & n & Hp & Hn & ->). unfold cell. simpl.
  destruct (nodes s !! N.to_nat k) as [q|] eqn:Hq; [|done].
  apply lookup_insert_ne. intros <-.
  pose proof (NoDup_lookup _ _ _ _ Hnd Hp Hq). lia.
Qed.





(** ** The pools of [main] *)



(** ** Weights stay positive *)

Lemma SetProps_positive (m m' : gmap ptr Node) (p : ptr) (status : bool) :
  positive m -> SetProps p status m = Done m' -> positive m'.
Proof.
  intros Hpos H. unfold SetProps in H. inv_done.
  match goal with H : deref _ _ = Done _ |- _ => apply deref_Done in H; rename H into Hc end.
  pose proof (Hpos _ _ Hc) as Hw.
  intros q c. rewrite lookup_insert. case_decide as Hq; [|apply Hpos].
  intros [= <-]. destruct status; simpl.
  - case_bool_decide; simpl; [|done]. by apply Qcmult_pos_pos.
  - apply Qcmult_pos_pos; [done | by apply Qcinv_pos].
Qed.

Lemma Heapify_rec_positive (fuel : nat) (idx : N) (root : bool) (s s' : state) :
  (len s < 2 ^ 63)%N -> positive (mem s) ->
  Heapify_rec fuel idx root s = Done s' -> positive (mem s').
Proof.
  intros Hlen Hpos H q c' Hc'.
  assert (is_Some (mem s !! q)) as [c Hc].
  { apply elem_of_dom. rewrite <- (Heapify_rec_dom _ _ _ _ _ H).
    by eapply elem_of_dom_2. }
  destruct (Heapify_rec_cell _ _ _ _ _ q c Hlen H Hc) as (m' & Hm' & _ & _ & Hw).
  rewrite Hc' in Hm'. injection Hm' as <-.
  pose proof (Hpos _ _ Hc) as Hp.
  destruct Hw as [-> | ->]; [done | by apply half_pos].
Qed.

(** ** Why the heap order needs its premises *)

(** A call that is not a root call does not order a subtree that was not
    ordered below the index: the root dominates its children and nothing
    moves, so the node at position 1, of weight 1, keeps its active child of
    weight 4/3 at position 3. *)
Example unordered_subtree_stays :
  exists s',
    Heapify 0 false
      (pool_of [mkNode "http://a" true (Q2Qc (4 # 3)); mkNode "http://b" true 1;
                mkNode "http://c" true 1; mkNode "http://d" true (Q2Qc (4 # 3))])
    = Done s' /\
    view s' = [Some ("http://a", true, (4 # 3)%Q); Some ("http://b", true, 1%Q);
               Some ("http://c", true, 1%Q); Some ("http://d", true, (4 # 3)%Q)] /\
    ~ dominates s' 1.
Proof.
  eexists. split; [by vm_compute|]. split; [by vm_compute|].
  intros Hd.
  match goal with
  | _ : dominates ?s 1 |- _ =>
      assert (exists n nc, cell s 1 = Some n /\ cell s 3 = Some nc /\
                Active nc = true /\ weight n < weight nc)
        as (n & nc & Hn & Hnc & Hac & Hlt)
  end.
  { eexists _, _. split; [by vm_compute|]. split; [by vm_compute|].
    split; [reflexivity|]. by vm_compute. }
  apply Qclt_not_le in Hlt. apply Hlt.
  by apply (Hd 3%N n nc (or_introl eq_refl)).
Qed.

(** Ordering the active nodes only is not enough as a premise: here every
    active node dominates its active children, the inactive node at
    position 1 does not, and the corrective pass on it brings its child, of
    weight 4/3, under the root, of weight 1. *)
Example inactive_parent_breaks_order :
  let s := pool_of [mkNode "http://a" true 1; mkNode "http://b" false (Q2Qc (1 # 3));
                    mkNode "http://c" true 1; mkNode "http://d" true (Q2Qc (4 # 3))] in
  heap_ordered s /\
  exists s',
    Heapify 0 false s = Done s' /\
    view s' = [Some ("http://a", true, 1%Q); Some ("http://d", true, (4 # 3)%Q);
               Some ("http://c", true, 1%Q); Some ("http://b", false, (1 # 3)%Q)] /\
    ~ heap_ordered s'.
Proof.
  split.
  - intros i n Hn Ha c m mc Hc Hm Hmc Hac.
    pose proof (cell_lt _ _ _ Hm) as Hi. pose proof (cell_lt _ _ _ Hmc) as Hci.
    unfold len in Hi, Hci. simpl in Hi, Hci.
    assert (i = 0 \/ i = 1)%N as [-> | ->] by lia.
    + assert (c = 1 \/ c = 2)%N as [-> | ->] by lia;
        vm_compute in Hm; vm_compute in Hmc;
        injection Hm as <-; injection Hmc as <-; [done | by vm_compute].
    + vm_compute in Hn. injection Hn as <-. done.
  - eexists. split; [by vm_compute|]. split; [by vm_compute|].
    intros Hh.
    match goal with
    | _ : heap_ordered ?s |- _ =>
        assert (exists n nc, cell s 0 = Some n /\ cell s 1 = Some nc /\
                  Active n = true /\ Active nc = true /\ weight n < weight nc)
          as (n & nc & Hn & Hnc & Ha & Hac & Hlt)
    end.
    { eexists _, _. split; [by vm_compute|]. split; [by vm_compute|].
      split; [reflexivity|]. split; [reflexivity|]. by vm_compute. }
    apply Qclt_not_le in Hlt. apply Hlt.
    by apply (Hh 0%N n Hn Ha 1%N n nc (or_introl eq_refl)).
Qed.

(** * Further properties of the code *)

(** ** [Swap] *)

Lemma swap_back {A : Type} (l : list A) (i j : nat) (x y : A) :
  l !! i = Some x -> l !! j = Some y ->
  <[j:=y]> (<[i:=x]> (<[j:=x]> (<[i:=y]> l))) = l.
Proof.
  intros Hi Hj.
  pose proof (lookup_lt_Some _ _ _ Hi) as Li.
  pose proof (lookup_lt_Some _ _ _ Hj) as Lj.
  apply list_eq. intros k.
  destruct (decide (k = j)) as [-> | Hkj].
  - rewrite list_lookup_insert_eq by (by rewrite !length_insert). by rewrite Hj.
  - rewrite list_lookup_insert_ne by done.
    destruct (decide (k = i)) as [-> | Hki].
    + rewrite list_lookup_insert_eq by (by rewrite !length_insert). by rewrite Hi.
    + by rewrite !list_lookup_insert_ne by done.
Qed.

Lemma Swap_eq (a b : N) (s : state) (pa pb : ptr) :
  nodes s !! N.to_nat a = Some pa -> nodes s !! N.to_nat b = Some pb ->
  Swap a b s =
  Done (State (mem s) (<[N.to_nat b:=pa]> (<[N.to_nat a:=pb]> (nodes s)))).
Proof.
  intros Ha Hb. unfold Swap, node_at. rewrite Ha, Hb. cbn.
  destruct (<[N.to_nat a:=pb]> (nodes s) !! N.to_nat b) as [q|] eqn:E; [done|].
  apply lookup_ge_None in E. rewrite length_insert in E.
  apply lookup_lt_Some in Hb. lia.
Qed.

Lemma Swap_Swap (i j : N) (s s1 : state) :
  Swap i j s = Done s1 -> Swap i j s1 = Done s.
Proof.
  intros H. pose proof (Swap_lookup _ _ _ _ H) as (Sj & Si & Sm).
  apply Swap_Done in H. destruct H as (pi & pj & Hi & Hj & E).
  assert (nodes s1 !! N.to_nat i = Some pj) as Hi1.
  { destruct (decide (i = j)) as [-> | Hne]; [|by rewrite Si].
    rewrite Sj. congruence. }
  assert (nodes s1 !! N.to_nat j = Some pi) as Hj1 by congruence.
  rewrite (Swap_eq i j s1 pj pi Hi1 Hj1). f_equal.
  apply state_eq; [done|]. rewrite E. cbn. by apply swap_back.
Qed.

(** X1. [Swap] exchanges two positions and is its own inverse: within the
    pool it returns, gives the same pool whichever index comes first, moves
    no other position, leaves the memory alone, and a second [Swap] of the
    same positions restores the pool.  With an index out of range it
    panics. *)
Theorem Swap_involutive (i j : N) (s : state) :
  ((i < len s)%N -> (j < len s)%N ->
   exists s1,
     Swap i j s = Done s1 /\ Swap j i s = Done s1 /\ Swap i j s1 = Done s /\
     mem s1 = mem s /\
     nodes s1 !! N.to_nat i = nodes s !! N.to_nat j /\
     nodes s1 !! N.to_nat j = nodes s !! N.to_nat i /\
     (forall k, k ≠ i -> k ≠ j -> nodes s1 !! N.to_nat k = nodes s !! N.to_nat k)) /\
  ((len s <= i)%N \/ (len s <= j)%N -> Swap i j s = Panic).
Proof.
  split.
  - intros Hi Hj.
    destruct (Swap_total i j s Hi Hj) as (s1 & E).
    exists s1. split; [exact E|].
    pose proof (Swap_lookup _ _ _ _ E) as (Sj & Si & Sm).
    pose proof E as E'. apply Swap_Done in E'.
    destruct E' as (pi & pj & Li & Lj & Es).
    split.
    { rewrite (Swap_eq j i s pj pi Lj Li), Es. f_equal. f_equal.
      destruct (decide (N.to_nat i = N.to_nat j)) as [En | En].
      - rewrite En in *. simplify_eq. reflexivity.
      - by apply list_insert_insert_ne. }
    split; [by apply Swap_Swap|]. split; [exact Sm|].
    split; [|split; [exact Sj|]].
    + destruct (decide (i = j)) as [-> | Hne]; [exact Sj | by apply Si].
    + intros k Hki Hkj. by eapply Swap_lookup_ne.
  - intros H. unfold Swap, node_at.
    destruct (nodes s !! N.to_nat i) as [pi|] eqn:Ei; [|done]. cbn.
    destruct (nodes s !! N.to_nat j) as [pj|] eqn:Ej; [|done].
    apply lookup_lt_Some in Ei, Ej. unfold len in H. lia.
Qed.

Lemma Swap_involutive_witness :
  exists s1, Swap 0 2 pool3 = Done s1 /\ Swap 0 2 s1 = Done pool3.
Proof.
  destruct (Swap_involutive 0 2 pool3) as [H _].
  destruct H as (s1 & E1 & _ & E2 & _); [by vm_compute | by vm_compute |].
  by exists s1.
Defined.

(** ** [Heapify] at the edges *)

Lemma child_wins_oob (s : state) (child largest : N) :
  (len s <= child)%N -> child_wins s child largest = Done false.
Proof.
  intros H. unfold child_wins. by rewrite (proj2 (N.ltb_ge _ _) H).
Qed.

Lemma low_weight_oob (s : state) (child : N) :
  (len s <= child)%N -> low_weight s child = Done false.
Proof.
  intros H. unfold low_weight. by rewrite (proj2 (N.ltb_ge _ _) H).
Qed.

Lemma Heapify_rec_leaf (fuel : nat) (idx : N) (root : bool) (s : state) :
  (idx + 1 < 2 ^ 63)%N -> (len s <= 2 * idx + 1)%N ->
  Heapify_rec (S fuel) idx root s =
  (if root then update_weight (fun w => w / 2) idx s else Done s).
Proof.
  intros Hidx Hleaf. cbn [Heapify_rec].
  rewrite !(wrap64_small (2 * idx + 1)), !(wrap64_small (2 * idx + 2)) by lia.
  destruct (if root then update_weight (fun w => w / 2) idx s else Done s)
    as [s1| |] eqn:E1; cbn [bind]; try reflexivity.
  pose proof (update_if_len _ _ _ _ _ E1) as L1.
  rewrite child_wins_oob by lia. cbn [bind].
  rewrite child_wins_oob by lia. cbn [bind].
  rewrite bool_decide_eq_false_2 by (intros E; by apply E). cbn [bind].
  rewrite low_weight_oob by lia. cbn [bind].
  rewrite low_weight_oob by lia. reflexivity.
Qed.

(** X2. [Heapify] on an index without a child in the pool, that is on a leaf
    or on an index past the end.  A call that is not a root call returns the
    pool as it is.  A root call on a leaf halves the weight of that leaf and
    moves no node.  A root call on an index past the end panics, on
    [np.nodes[idx]].  (The index is small enough for [2*idx+2] not to wrap.) *)
Theorem Heapify_without_children (s : state) (idx : N) :
  (idx + 1 < 2 ^ 63)%N -> (len s <= 2 * idx + 1)%N ->
  Heapify idx false s = Done s /\
  (forall p n, nodes s !! N.to_nat idx = Some p -> mem s !! p = Some n ->
     Heapify idx true s =
     Done (State (<[p := set_weight (weight n / 2) n]> (mem s)) (nodes s))) /\
  ((len s <= idx)%N -> Heapify idx true s = Panic).
Proof.
  intros Hidx Hleaf. unfold Heapify. rewrite !Heapify_rec_leaf by done.
  split; [done|]. split.
  - intros p n Hp Hn. unfold update_weight, node_at, deref.
    rewrite Hp. cbn. rewrite Hn. reflexivity.
  - intros Hlen. unfold update_weight, node_at.
    rewrite (proj2 (lookup_ge_None _ _)); [done|]. unfold len in Hlen. lia.
Qed.

Lemma Heapify_without_children_witness :
  Heapify 2 false pool3 = Done pool3 /\ Heapify 3 true pool3 = Panic.
Proof.
  destruct (Heapify_without_children pool3 2) as (H1 & _); [done | by vm_compute |].
  destruct (Heapify_without_children pool3 3) as (_ & _ & H2);
    [done | by vm_compute |].
  split; [exact H1 | apply H2; by vm_compute].
Defined.




(** ** Which nodes a repair moves up *)

(** The comparisons of a root call see every node with the activity it has
    in the pool. *)
Lemma cell_compared (root : bool) (p : ptr) (n : Node) (s : state) (i : N) (m : Node) :
  mem s !! p = Some n ->
  cell (compared root p n s) i = Some m ->
  exists m0, cell s i = Some m0 /\ Active m = Active m0 /\ URL m = URL m0.
Proof.
  intros Hn. unfold compared. destruct root; [|by eauto].
  unfold cell. simpl. destruct (nodes s !! N.to_nat i) as [q|]; [|done].
  rewrite lookup_insert. case_decide as Hq.
  - subst q. intros [= <-]. exists n. by rewrite Hn.
  - eauto.
Qed.

Lemma compared_nodes (root : bool) (p : ptr) (n : Node) (s : state) :
  nodes (compared root p n s) = nodes s.
Proof. unfold compared. by destruct root. Qed.

(** X4. [Heapify] never moves an inactive node up.  After a call at an index
    within a well-formed pool, the node at that index is the one that was
    there or an active node. *)
Theorem Heapify_promotes_active_only (s : state) (idx : N) (root : bool) :
  wf s -> (len s < 2 ^ 63)%N -> (idx < len s)%N ->
  exists s', Heapify idx root s = Done s' /\
    (nodes s' !! N.to_nat idx = nodes s !! N.to_nat idx \/
     exists n', cell s' idx = Some n' /\ Active n' = true).
Proof.
  intros W Hlen Hidx.
  destruct (Heapify_total idx root s W Hlen Hidx) as (s' & E & _).
  exists s'. split; [exact E|]. unfold Heapify in E.
  remember (length (nodes s)) as fuel eqn:Ef. clear Ef.
  destruct (read_total s idx W Hidx) as (p & n & Hp & Hn).
  apply node_at_Done in Hp. apply deref_Done in Hn.
  apply Heapify_rec_cases in E; [|done|done].
  destruct E as (s1 & b1 & b2 & s2 & b3 & s3 & b4 & H1 & Hb1 & Hb2 & H2 & Hb3 & H3 & Hb4 & H4).
  assert (s1 = compared root p n s) as E1.
  { unfold compared. destruct root.
    - apply update_weight_Done in H1. destruct H1 as (p' & c' & Hp' & Hc' & ->).
      simplify_eq. done.
    - by injection H1 as <-. }
  assert (len s1 = len s) as L1 by (eapply update_if_len; eauto).
  assert (len s2 = len s /\
          ((nodes s2 !! N.to_nat idx = nodes s !! N.to_nat idx) \/
           exists n', cell s2 idx = Some n' /\ Active n' = true)) as [L2 C2].
  { destruct H2 as [(_ & _ & ->) | (c & sb & Ec & Hb & Hclt & Hsw & Hrec)].
    - split; [done|]. left. by rewrite E1, compared_nodes.
    - destruct (winner_facts s1 idx b1 b2 c Hb1 Hb2 Hb Ec)
        as (nc & ni & Hnc & _ & Ha & _).
      rewrite E1 in Hnc. destruct (cell_compared _ _ _ _ _ _ Hn Hnc) as (m0 & Hm0 & Hact & _).
      assert (c = 2 * idx + 1 \/ c = 2 * idx + 2)%N as Hc by (destruct b2; auto).
      pose proof (Swap_len _ _ _ _ Hsw) as Lb.
      destruct (cell_Swap _ _ _ _ Hsw ltac:(lia)) as (Sidx & _ & _).
      split; [apply Heapify_rec_length in Hrec; congruence|]. right.
      exists m0. split; [|congruence].
      rewrite (cell_frame fuel c sb s2 idx ltac:(lia) ltac:(lia) Hrec) by
        (intros Hbl; apply below_ge in Hbl; lia).
      by rewrite Sidx. }
  destruct (pass_frame fuel b3 idx (2 * idx + 1) s2 s3) as (M3 & L3 & F3);
    [lia | lia | done | done |].
  destruct (pass_frame fuel b4 idx (2 * idx + 2) s3 s') as (M4 & L4 & F4);
    [lia | lia | done | done |].
  assert (nodes s' !! N.to_nat idx = nodes s2 !! N.to_nat idx) as En.
  { rewrite F4, F3 by (intros Hbl; apply below_ge in Hbl; lia). done. }
  destruct C2 as [C2 | (n' & Hn' & Ha')]; [left; congruence|].
  right. exists n'. split; [|done]. unfold cell in *. by rewrite En, M4, M3.
Qed.

Lemma Heapify_promotes_active_only_witness :
  exists s', Heapify 0 true pool3 = Done s' /\
    (nodes s' !! 0%nat = nodes pool3 !! 0%nat \/
     exists n', cell s' 0 = Some n' /\ Active n' = true).
Proof.
  apply (Heapify_promotes_active_only pool3 0 true);
    [compute_done | by vm_compute | by vm_compute].
Defined.



(** ** Equal weights *)

Lemma uniform_dominates (w : Qc) (s : state) (i : N) :
  uniform w s -> dominates s i.
Proof.
  intros Hu c n nc _ Hn Hnc _.
  destruct (Hu _ _ Hn) as [-> _]. destruct (Hu _ _ Hnc) as [-> _].
  apply Qcle_refl.
Qed.

(** On a pool of equal positive weights the root repair swaps the first two
    nodes and changes no weight: the halved root loses to its left child and
    gets its weight back. *)
Lemma uniform_root_repair (w : Qc) (s : state) :
  wf s -> NoDup (nodes s) -> (len s < 2 ^ 63)%N -> (2 <= len s)%N ->
  0 < w -> uniform w s ->
  exists s1, Swap 1 0 s = Done s1 /\ Heapify 0 true s = Done s1 /\
             wf s1 /\ NoDup (nodes s1) /\ len s1 = len s /\ uniform w s1.
Proof.
  intros W Hnd Hlen H2 Hw Hu.
  destruct (Swap_total 1 0 s) as (sb & Esb); [lia | lia |].
  pose proof (Swap_len _ _ _ _ Esb) as Lb.
  destruct (cell_Swap _ _ _ _ Esb ltac:(lia)) as (S0 & S1 & Sk).
  assert (uniform w sb) as Hub.
  { intros i n Hn. destruct (N.eq_dec i 0%N) as [-> | H0].
    - rewrite S0 in Hn. by eapply Hu.
    - destruct (N.eq_dec i 1%N) as [-> | H1].
      + rewrite S1 in Hn. by eapply Hu.
      + rewrite Sk in Hn by done. by eapply Hu. }
  assert (nodes sb ≡ₚ nodes s) as Hperm.
  { apply Swap_Done in Esb. destruct Esb as (pi & pj & Hi & Hj & ->).
    by apply swap_Permutation. }
  exists sb. split; [done|]. split.
  2:{ split; [by eapply Swap_wf|]. split; [by rewrite Hperm|]. done. }
  destruct (Heapify_total 0 true s W Hlen) as (s' & E & _); [lia|].
  rewrite E. f_equal. unfold Heapify in E.
  remember (length (nodes s)) as fuel eqn:Ef. clear Ef.
  destruct (read_total s 0 W) as (p & n & Hp & Hn); [lia|].
  apply Heapify_rec_cases in E; [|done|lia].
  destruct E as (s1 & b1 & b2 & s2 & b3 & s3 & b4 & H1 & Hb1 & Hb2 & Hsw & Hb3 & H3 & Hb4 & H4).
  simpl in H1.
  assert (len s1 = len s) as L1 by (by eapply (update_if_len true)).
  (* the cells the comparisons see *)
  assert (forall k, k ≠ 0%N -> cell s1 k = cell s k) as Hk.
  { intros k Hk. by eapply cell_halved. }
  assert (exists n0, cell s1 0 = Some n0 /\ weight n0 = w / 2) as (n0 & Hn0 & Hw0).
  { apply update_weight_Done in H1. destruct H1 as (p' & c' & Hp' & Hc' & ->).
    unfold cell. simpl. rewrite Hp'. rewrite lookup_insert_eq.
    eexists. split; [reflexivity|]. simpl.
    assert (cell s 0 = Some c') as Hc by (unfold cell; by rewrite Hp').
    by destruct (Hu _ _ Hc) as [-> _]. }
  destruct (read_total s 1 W) as (p1 & n1 & Hp1 & Hn1); [lia|].
  assert (cell s 1 = Some n1) as Hc1.
  { apply node_at_Done in Hp1. apply deref_Done in Hn1. unfold cell. by rewrite Hp1. }
  destruct (Hu _ _ Hc1) as [Hw1 Ha1].
  assert (b1 = true) as ->.
  { destruct b1; [done|]. exfalso.
    assert (weight n1 <= weight n0) as Hle.
    { eapply (child_wins_false s1 1 0); eauto. by rewrite Hk. }
    rewrite Hw1, Hw0 in Hle. apply Qcle_not_lt in Hle. apply Hle. by apply half_lt. }
  assert (b2 = false) as ->.
  { destruct b2; [|done]. exfalso. apply child_wins_true in Hb2.
    destruct Hb2 as (nc & nl & Hnc & Hnl & _ & Hlt).
    rewrite Hk in Hnc, Hnl by done.
    destruct (Hu _ _ Hnc) as [Ec _]. destruct (Hu _ _ Hnl) as [El _].
    rewrite Ec, El in Hlt. by apply Qclt_not_eq in Hlt. }
  destruct Hsw as [(? & _) | (c & sb' & -> & _ & Hclt & Hsw & Hrec)]; [done|].
  change (2 * 0 + 1)%N with 1%N in *. change (2 * 0 + 2)%N with 2%N in *.
  rewrite Esb in Hsw. injection Hsw as <-.
  assert (s2 = sb) as ->.
  { eapply (Heapify_rec_ordered_id fuel 1 sb); [lia | lia | | done].
    intros i _. by eapply uniform_dominates. }
  assert (s3 = sb) as ->.
  { destruct b3; [|by injection H3]. 
    eapply (Heapify_rec_ordered_id fuel 1 sb); [lia | lia | | done].
    intros i _. by eapply uniform_dominates. }
  destruct b4; [|by injection H4]. apply low_weight_true_lt in Hb4.
  eapply (Heapify_rec_ordered_id fuel 2 sb); [lia | lia | | done].
  intros i _. by eapply uniform_dominates.
Qed.



(** ** The shape of every run of the dispatcher *)

Lemma count_forwards_app (l1 l2 : list event) :
  count_forwards (l1 ++ l2) = (count_forwards l1 + count_forwards l2)%nat.
Proof.
  induction l1 as [|e l1 IH]; [done|]. destruct e; simpl; by rewrite ?IH.
Qed.

Lemma answered_repair (u : string) (evs : list event) (k : nat) :
  answered u evs k -> answered u (evs ++ [CallHeapify 0 true]) (S k).
Proof.
  intros (pre & resp & -> & Hq & Hr). exists pre, resp. split; [|done].
  rewrite <- app_assoc. f_equal. simpl. f_equal.
  change (CallHeapify 0 true :: replicate k (CallHeapify 0 true))
    with (replicate (S k) (CallHeapify 0 true)).
  by rewrite replicate_S_end.
Qed.

Lemma answered_quiet (u : string) (e : event) (evs : list event) (k : nat) :
  quiet u e -> answered u evs k -> answered u (e :: evs) k.
Proof.
  intros He (pre & resp & -> & Hq & Hr). exists (e :: pre), resp.
  split; [done|]. split; [by constructor | done].
Qed.

Section DispatchShape.

Variable backend : nat -> string -> bool.

(** A property of pools that holds of good pools only and that the root
    repair and the marking of a node keep. *)
Variable Inv : state -> Prop.
Hypothesis Inv_good : forall s, Inv s -> good s.
Hypothesis Inv_Heapify :
  forall s s', Inv s -> Heapify 0 true s = Done s' -> Inv s'.
Hypothesis Inv_SetNodeStatus :
  forall u s s', Inv s -> SetNodeStatus u false s = Done s' -> Inv s'.

Lemma dispatch_shape (fuel : nat) :
  forall (r : request) (st : run) (u : string),
    Inv (pool st) -> root_url (pool st) u ->
    ((need r <= fuel)%nat ->
     exists st' evs k,
       loadBalancer backend fuel r st = Done st' /\ Inv (pool st') /\
       log st' = log st ++ evs /\ answered u evs k /\
       sent st' = (sent st + count_forwards evs)%nat /\
       (k <= Z.to_nat (4 - GetAttemptsFromContext r))%nat /\
       (count_forwards evs <= Z.to_nat (3 - GetRetryFromContext r)
                              + Z.to_nat (4 - GetAttemptsFromContext r))%nat /\
       ((3 < GetAttemptsFromContext r)%Z ->
        evs = [HttpError "Service not available" StatusServiceUnavailable] /\
        pool st' = pool st) /\
       ((GetAttemptsFromContext r <= 3)%Z -> (1 <= k)%nat)) /\
    ((GetAttemptsFromContext r <= 3)%Z -> (need r <= S fuel)%nat ->
     exists st' evs k,
       ServeHTTP backend fuel u r st = Done st' /\ Inv (pool st') /\
       log st' = log st ++ evs /\ answered u evs k /\
       sent st' = (sent st + count_forwards evs)%nat /\
       (S k <= Z.to_nat (4 - GetAttemptsFromContext r))%nat /\
       (count_forwards evs <= Z.to_nat (3 - GetRetryFromContext r)
                              + Z.to_nat (4 - GetAttemptsFromContext r))%nat).
Proof.
  induction fuel as [|fuel IH]; intros r st u HI Hu.
  { split; [unfold need; lia|]. intros Ha Hf. unfold need in Hf. lia. }
  split.
  - intros Hf.
    destruct (Z.lt_ge_cases 3 (GetAttemptsFromContext r)) as [Ha | Ha].
    + rewrite loadBalancer_reject by done.
      eexists _, [HttpError "Service not available" StatusServiceUnavailable], 0%nat.
      split; [reflexivity|]. split; [exact HI|]. split; [reflexivity|].
      split; [exists [], (HttpError "Service not available" StatusServiceUnavailable);
              split; [done|]; split; [constructor | by right]|].
      simpl. repeat split; try lia. 
    + destruct Hu as (p & c & Hp & Hc & <-).
      assert (p ≠ nil_ptr) as Hnil.
      { destruct (good_root _ (Inv_good _ HI)) as (p' & c' & Hp' & Hnil & _).
        congruence. }
      rewrite (loadBalancer_select backend fuel r st p c Ha Hp Hnil Hc).
      destruct (IH r st (URL c) HI) as [_ Hsv]; [by exists p, c|].
      destruct (Hsv Ha) as (st1 & evs1 & k1 & E1 & I1 & L1 & A1 & S1 & K1 & C1); [lia|].
      rewrite E1. cbn [bind].
      destruct (call_Heapify_total st1 (Inv_good _ I1)) as (st' & E' & _ & L' & S').
      exists st', (evs1 ++ [CallHeapify 0 true]), (S k1).
      split; [exact E'|]. split.
      { unfold call_Heapify in E'. apply bind_Done in E'.
        destruct E' as (s' & Es' & E'). injection E' as <-. simpl.
        by eapply Inv_Heapify. }
      split; [by rewrite L', L1, <- app_assoc|].
      split; [by apply answered_repair|].
      rewrite count_forwards_app. simpl.
      repeat split; try lia.
  - intros Ha Hf.
    destruct (backend (sent st) u) eqn:Hb.
    + rewrite ServeHTTP_ok by done.
      eexists _, [Forward u true], 0%nat. split; [reflexivity|].
      split; [exact HI|]. split; [reflexivity|].
      split; [exists [], (Forward u true); split; [done|]; split;
              [constructor | by left]|].
      simpl. repeat split; lia.
    + destruct (Z.lt_ge_cases (GetRetryFromContext r) 3) as [Hr | Hr].
      * rewrite ServeHTTP_retry by done.
        set (st1 := Run _ _ _). set (r1 := WithRetry _ r).
        destruct (IH r1 st1 u HI Hu) as [_ Hsv].
        destruct Hsv as (st' & evs1 & k & E' & I' & L' & A' & S' & K' & C').
        { exact Ha. }
        { unfold need in *. subst r1.
          rewrite GetRetry_WithRetry, GetAttempts_WithRetry. lia. }
        subst r1. rewrite GetRetry_WithRetry, GetAttempts_WithRetry in *.
        exists st', (Forward u false :: Sleep 10 :: evs1), k.
        split; [exact E'|]. split; [exact I'|].
        split; [rewrite L'; subst st1; simpl; by rewrite <- !app_assoc|].
        split.
        { apply answered_quiet; [by left|].
          apply answered_quiet; [right; by left | done]. }
        subst st1. simpl in *. repeat split; lia.
      * rewrite ServeHTTP_failover by done. cbv zeta.
        set (st1 := Run _ _ _). set (r1 := WithAttempts _ r).
        destruct (3 <=? GetAttemptsFromContext r)%Z eqn:E3.
        -- apply Z.leb_le in E3.
           destruct (call_SetNodeStatus_total u false st1 (Inv_good _ HI))
             as (st2 & E2 & G2 & _ & L2 & S2).
           rewrite E2. cbn [bind].
           assert (Inv (pool st2)) as I2.
           { unfold call_SetNodeStatus in E2. apply bind_Done in E2.
             destruct E2 as (s2 & Es2 & E2). injection E2 as <-. simpl.
             by eapply (Inv_SetNodeStatus u (pool st1)). }
           destruct (good_root _ G2) as (p2 & c2 & Hp2 & _ & Hc2).
           destruct (IH r1 st2 (URL c2) I2) as [Hlb _]; [by exists p2, c2|].
           destruct Hlb as (st' & evs2 & k2 & E' & I' & L' & _ & S' & _ & _ & R' & _).
           { unfold need in *. subst r1.
             rewrite GetRetry_WithAttempts, GetAttempts_WithAttempts. lia. }
           destruct R' as [-> _].
           { subst r1. rewrite GetAttempts_WithAttempts. lia. }
           exists st', [Forward u false; LogAttempt (GetAttemptsFromContext r);
                        CallSetNodeStatus u false;
                        HttpError "Service not available" StatusServiceUnavailable],
                  0%nat.
           split; [exact E'|]. split; [exact I'|].
           split; [rewrite L', L2; subst st1; simpl; by rewrite <- !app_assoc|].
           split.
           { exists [Forward u false; LogAttempt (GetAttemptsFromContext r);
                     CallSetNodeStatus u false],
                    (HttpError "Service not available" StatusServiceUnavailable).
             split; [done|]. split; [|by right].
             apply Forall_cons. split; [by left|].
             apply Forall_cons. split; [right; right; left; eauto|].
             apply Forall_cons. split; [by repeat right | constructor]. }
           simpl in *. subst st1. simpl in *. repeat split; lia.
        -- apply Z.leb_gt in E3. cbn [bind].
           destruct (IH r1 st1 u HI Hu) as [Hlb _].
           destruct Hlb as (st' & evs2 & k2 & E' & I' & L' & A' & S' & K' & C' & _ & _).
           { unfold need in *. subst r1.
             rewrite GetRetry_WithAttempts, GetAttempts_WithAttempts. lia. }
           subst r1. rewrite GetRetry_WithAttempts, GetAttempts_WithAttempts in *.
           exists st', (Forward u false :: LogAttempt (GetAttemptsFromContext r) :: evs2), k2.
           split; [exact E'|]. split; [exact I'|].
           split; [rewrite L'; subst st1; simpl; by rewrite <- !app_assoc|].
           split.
           { apply answered_quiet; [by left|].
             apply answered_quiet; [right; right; left; eauto | done]. }
           subst st1. simpl in *. repeat split; lia.
Qed.

End DispatchShape.

(** ** What every function keeps *)

Lemma two_pos : (0 : Qc) < 2.
Proof. done. Qed.




(** The loop of [SetNodeStatus] changes nothing or applies [SetProps] to one
    node of the list. *)
Lemma SetNodeStatus_loop_cases (l : list ptr) (url : string) (status : bool)
    (m m' : gmap ptr Node) :
  SetNodeStatus_loop l url status m = Done m' ->
  m' = m \/ exists p, p ∈ l /\ SetProps p status m = Done m'.
Proof.
  induction l as [|p l IH]; simpl; intros H; [left; congruence|].
  apply bind_Done in H. destruct H as (c & Hc & H).
  destruct (bool_decide (URL c = url)).
  - right. exists p. split; [by left | done].
  - destruct (IH H) as [-> | (q & Hq & Hs)]; [by left|].
    right. exists q. split; [by right | done].
Qed.


Lemma keeps_refl (s : state) : keeps s s.
Proof. split; [done|]. split; [done|]. intros q c c' H1 H2. congruence. Qed.



Lemma SetProps_keeps (s : state) (m' : gmap ptr Node) (p : ptr) (status : bool) :
  SetProps p status (mem s) = Done m' -> keeps s (set_mem m' s).
Proof.
  intros H. unfold SetProps in H. apply bind_Done in H.
  destruct H as (c0 & Hc0 & H). apply deref_Done in Hc0. injection H as <-.
  split; [done|]. split; [apply dom_insert_present; by eapply elem_of_dom_2|].
  intros q c c' Hc. simpl. rewrite lookup_insert. case_decide as Hq; [|congruence].
  subst q. intros [= <-]. rewrite Hc0 in Hc. injection Hc as <-.
  destruct status; simpl; [by case_bool_decide | done].
Qed.

Lemma SetNodeStatus_keeps (url : string) (status : bool) (s s' : state) :
  SetNodeStatus url status s = Done s' -> keeps s s'.
Proof.
  intros H. unfold SetNodeStatus in H.
  apply bind_Done in H. destruct H as (m' & Hm' & H). injection H as <-.
  destruct (SetNodeStatus_loop_cases _ _ _ _ _ Hm') as [-> | (p & _ & Hs)].
  - destruct s. apply keeps_refl.
  - by eapply SetProps_keeps.
Qed.




Lemma good_Heapify (s s' : state) :
  good s -> Heapify 0 true s = Done s' -> good s'.
Proof.
  intros G H. unfold Heapify in H. eapply good_transport; [exact G | |].
  - by eapply Heapify_rec_Permutation.
  - by eapply Heapify_rec_dom.
Qed.

Lemma good_SetNodeStatus (u : string) (s s' : state) :
  good s -> SetNodeStatus u false s = Done s' -> good s'.
Proof.
  intros G H. destruct (SetNodeStatus_keeps _ _ _ _ H) as (P & D & _).
  by eapply good_transport.
Qed.

Lemma answered_targets (u : string) (evs : list event) (k : nat) :
  answered u evs k ->
  (forall v ok, Forward v ok ∈ evs -> v = u) /\
  (forall i root, CallHeapify i root ∈ evs -> i = 0%N /\ root = true) /\
  (forall body code, HttpError body code ∈ evs ->
     body = "Service not available"%string /\ code = 503%Z).
Proof.
  intros (pre & resp & -> & Hq & Hr).
  assert (forall e, e ∈ pre ++ resp :: replicate k (CallHeapify 0 true) ->
            quiet u e \/ response u e \/ e = CallHeapify 0 true) as Hcase.
  { intros e He. apply elem_of_app in He. destruct He as [He | He].
    - left. rewrite Forall_forall in Hq. by apply Hq.
    - apply elem_of_cons in He. destruct He as [-> | He]; [right; by left|].
      apply elem_of_replicate in He. destruct He as [-> _]. by repeat right. }
  split; [|split].
  - intros v ok He.
    destruct (Hcase _ He) as [[H | [H | [(a & H) | H]]] | [[H | H] | H]]; congruence.
  - intros i root He.
    destruct (Hcase _ He) as [[H | [H | [(a & H) | H]]] | [[H | H] | H]];
      try discriminate. by injection H as -> ->.
  - intros body code He.
    destruct (Hcase _ He) as [[H | [H | [(a & H) | H]]] | [[H | H] | H]];
      try discriminate. by injection H as -> ->.
Qed.

(** ** The dispatcher on any backend *)

(** X7. Every request gets exactly one answer.  Whatever the backends do, on
    a good pool the handler returns, and its log is: failed forwardings with
    their delays and failover lines, then a single answer (the backend's
    response or the 503 "Service not available"), then root repairs.
    Nothing is forwarded after the answer, and the "Downtime" response is
    never sent. *)
Theorem request_answered_once (backend : nat -> string -> bool)
    (s : state) (u : string) :
  good s -> root_url s u ->
  exists st' k,
    handle backend fresh s = Done st' /\ answered u (log st') k /\
    forall body code, HttpError body code ∈ log st' ->
      body = "Service not available"%string /\ code = 503%Z.
Proof.
  intros G Hu.
  destruct (dispatch_shape backend good (fun _ H => H) good_Heapify good_SetNodeStatus
              (enough fresh) fresh (Run s [] 0) u G Hu) as [Hlb _].
  destruct Hlb as (st' & evs & k & E & _ & L & A & _); [by vm_compute; lia|].
  simpl in L. subst evs. exists st', k. split; [exact E|]. split; [exact A|].
  by destruct (answered_targets _ _ _ A) as (_ & _ & H).
Qed.

Lemma request_answered_once_witness :
  exists st' k,
    handle (fun k _ => bool_decide (k = 5%nat)) fresh pool3 = Done st' /\
    answered "http://a" (log st') k.
Proof.
  destruct (request_answered_once (fun k _ => bool_decide (k = 5%nat)) pool3 "http://a")
    as (st' & k & E & A & _).
  - compute_done.
  - exists 1%nat, (mkNode "http://a" true 1). by split.
  - exists st', k. split; [exact E | exact A].
Defined.



(** ** The pool over the life of the server *)





(** ** Health checks *)











(** ** [SetNodeStatus] *)

Lemma SetNodeStatus_loop_first (l : list ptr) (url : string) (status : bool)
    (m : gmap ptr Node) :
  Forall (fun p => p ∈ dom m) l ->
  (Forall (fun p => forall c, m !! p = Some c -> URL c ≠ url) l /\
   SetNodeStatus_loop l url status m = Done m) \/
  exists i p c,
    l !! i = Some p /\ m !! p = Some c /\ URL c = url /\
    (forall j q cq, (j < i)%nat -> l !! j = Some q -> m !! q = Some cq -> URL cq ≠ url) /\
    SetNodeStatus_loop l url status m = SetProps p status m.
Proof.
  induction l as [|p l IH]; intros Hl; [left; by split|].
  apply Forall_cons in Hl. destruct Hl as [Hp Hl].
  apply elem_of_dom in Hp. destruct Hp as [c Hc].
  assert (SetNodeStatus_loop (p :: l) url status m =
          if bool_decide (URL c = url) then SetProps p status m
          else SetNodeStatus_loop l url status m) as ->
    by (cbn [SetNodeStatus_loop]; unfold deref; by rewrite Hc).
  case_bool_decide as Hu.
  - right. exists 0%nat, p, c. split; [done|]. split; [done|]. split; [done|].
    split; [|done]. intros j q cq Hj. lia.
  - destruct (IH Hl) as [[Hall E] | (i & q & cq & Hq & Hcq & Huq & Hbefore & E)].
    + left. split; [|done]. apply Forall_cons. split; [|done].
      intros c' Hc'. congruence.
    + right. exists (S i), q, cq. split; [done|]. split; [done|]. split; [done|].
      split; [|done].
      intros j q' cq' Hj Hq' Hcq'. destruct j as [|j].
      * simpl in Hq'. injection Hq' as <-. congruence.
      * simpl in Hq'. apply (Hbefore j q' cq'); [lia | done | done].
Qed.

(** X12. [SetNodeStatus] marks one node at most.  On a well-formed pool it
    returns and leaves the order of the pool alone.  When no node has the
    URL the pool is unchanged; otherwise [SetProps] is applied to the first
    node of the pool, in heap order, that has the URL, and every other
    node, a later one with the same URL included, is left as it was. *)
Theorem SetNodeStatus_first_match (url : string) (status : bool) (s : state) :
  wf s ->
  exists s',
    SetNodeStatus url status s = Done s' /\ nodes s' = nodes s /\
    (((forall i n, cell s i = Some n -> URL n ≠ url) /\ s' = s) \/
     exists i p c,
       nodes s !! i = Some p /\ mem s !! p = Some c /\ URL c = url /\
       (forall j n, (j < i)%nat -> cell s (N.of_nat j) = Some n -> URL n ≠ url) /\
       SetProps p status (mem s) = Done (mem s') /\
       (forall q, q ≠ p -> mem s' !! q = mem s !! q)).
Proof.
  intros [Hall Hnil]. unfold SetNodeStatus.
  destruct (SetNodeStatus_loop_first (nodes s) url status (mem s) Hall)
    as [[Hno E] | (i & p & c & Hp & Hc & Hu & Hbefore & E)]; rewrite E.
  - exists (set_mem (mem s) s). split; [done|]. split; [done|]. left.
    split; [|by destruct s].
    intros i n Hn. apply cell_Some in Hn. destruct Hn as (p & Hp & Hn).
    rewrite Forall_forall in Hno. apply (Hno p); [|done].
    by eapply list_elem_of_lookup_2.
  - rewrite (SetProps_Done _ _ _ status Hc). cbn [bind].
    eexists. split; [reflexivity|]. split; [done|]. right.
    exists i, p, c. split; [done|]. split; [done|]. split; [done|].
    split; [|split; [exact (SetProps_Done _ _ _ status Hc)|]].
    + intros j n Hj Hn. apply cell_Some in Hn. destruct Hn as (q & Hq & Hn).
      rewrite Nat2N.id in Hq. by eapply Hbefore.
    + intros q Hq. simpl. by rewrite lookup_insert_ne.
Qed.

Lemma SetNodeStatus_first_match_witness :
  exists s', SetNodeStatus "http://d" false pool3 = Done s' /\ nodes s' = nodes pool3.
Proof.
  destruct (SetNodeStatus_first_match "http://d" false pool3) as (s' & E & Hn & _).
  - compute_done.
  - exists s'. split; [exact E | exact Hn].
Defined.

(** ** [NextIdx] *)

(** X13. [NextIdx] goes round the pool.  On an empty pool the call panics.
    Otherwise it returns an index of the pool, and the next call returns
    the following index, back to 0 after the last one, except when the
    64-bit counter wraps around: then the next index is 0 whatever the last
    one was. *)
Theorem NextIdx_round_robin (current : N) (s : state) :
  (len s < 2 ^ 63)%N ->
  (len s = 0%N -> NextIdx current s = Panic) /\
  ((0 < len s)%N ->
   exists c1 i1 c2 i2,
     NextIdx current s = Done (c1, i1) /\ NextIdx c1 s = Done (c2, i2) /\
     (0 <= i1 < Z.of_N (len s))%Z /\ (0 <= i2 < Z.of_N (len s))%Z /\
     ((c1 + 1 < 2 ^ 64)%N -> i2 = ((i1 + 1) mod Z.of_N (len s))%Z) /\
     ((c1 + 1 = 2 ^ 64)%N -> i2 = 0%Z)).
Proof.
  intros Hlen. unfold NextIdx. split.
  { intros ->. reflexivity. }
  intros H0. destruct (N.eqb_spec (len s) 0) as [E | _]; [lia|].
  assert (forall x, to_int (x mod len s) = Z.of_N (x mod len s)) as Hint.
  { intros x. unfold to_int.
    pose proof (N.mod_upper_bound x (len s) ltac:(lia)) as Hx.
    destruct (N.ltb_spec (x mod len s) (2 ^ 63)) as [|Hge]; [done|].
    exfalso. apply (N.lt_irrefl (2 ^ 63)).
    eapply N.le_lt_trans; [exact Hge|]. by eapply N.lt_trans. }
  eexists _, _, _, _. split; [reflexivity|]. split; [reflexivity|].
  rewrite !Hint. set (c1 := wrap64 (current + 1)).
  assert (forall x, 0 <= Z.of_N (x mod len s) < Z.of_N (len s))%Z as Hb.
  { intros x. pose proof (N.mod_upper_bound x (len s) ltac:(lia)).
    split; [apply N2Z.is_nonneg | by apply N2Z.inj_lt]. }
  split; [apply Hb|]. split; [apply Hb|]. split.
  - intros Hc. rewrite wrap64_small by done.
    rewrite !N2Z.inj_mod, N2Z.inj_add. change (Z.of_N 1) with 1%Z.
    by rewrite Z.add_mod_idemp_l by lia.
  - intros Hc. unfold wrap64 at 1. by rewrite Hc, N.Div0.mod_same, N.Div0.mod_0_l.
Qed.

Lemma NextIdx_round_robin_witness :
  exists c1 i1 c2 i2,
    NextIdx 4 pool3 = Done (c1, i1) /\ NextIdx c1 pool3 = Done (c2, i2) /\
    (0 <= i1 < 3)%Z /\ (0 <= i2 < 3)%Z.
Proof.
  destruct (NextIdx_round_robin 4 pool3) as [_ H]; [by vm_compute|].
  destruct H as (c1 & i1 & c2 & i2 & E1 & E2 & B1 & B2 & _); [by vm_compute|].
  exists c1, i1, c2, i2. split; [exact E1|]. split; [exact E2|].
  split; [exact B1 | exact B2].
Defined.

(** ** A pool of healthy backends *)

(** A request whose first forwarding succeeds. *)
Lemma handle_ok (backend : nat -> string -> bool) (s s1 : state) (p : ptr) (c : Node) :
  nodes s !! 0%nat = Some p -> p ≠ nil_ptr -> mem s !! p = Some c ->
  backend 0%nat (URL c) = true -> Heapify 0 true s = Done s1 ->
  handle backend fresh s =
  Done (Run s1 [Forward (URL c) true; CallHeapify 0 true] 1).
Proof.
  intros Hp Hnil Hc Hb E. unfold handle. change (enough fresh) with 11%nat.
  rewrite (loadBalancer_select backend 10 fresh _ p c) by (done || by vm_compute).
  rewrite (ServeHTTP_ok backend 9) by done. cbn [bind].
  unfold call_Heapify. cbn [pool log sent]. by rewrite E.
Qed.

(** A health check that finds every node answering, active and not below
    weight 1 changes nothing. *)
Lemma HealthCheck_loop_healthy (probe : string -> bool) (todo : nat) :
  forall (i : N) (s : state),
    wf s -> (i + N.of_nat todo <= len s)%N ->
    (forall k n, cell s k = Some n ->
       Active n = true /\ ~ weight n < 1 /\ probe (URL n) = true) ->
    HealthCheck_loop probe todo i s = Done s.
Proof.
  induction todo as [|todo IH]; intros i s W Hi Hall; [done|].
  cbn [HealthCheck_loop].
  destruct (read_total s i W) as (p & c & Hp & Hc); [lia|].
  rewrite Hp. cbn [bind]. rewrite Hc. cbn [bind].
  apply node_at_Done in Hp. apply deref_Done in Hc.
  assert (cell s i = Some c) as Hcell by (apply cell_Some; eauto).
  destruct (Hall _ _ Hcell) as (Ha & Hw & Hpr).
  rewrite (SetProps_Done _ _ _ _ Hc), Hpr. cbn [bind negb].
  rewrite bool_decide_eq_false_2 by done.
  assert (mkNode (URL c) true (weight c) = c) as -> by (destruct c; simpl in *; by subst).
  rewrite insert_id by done.
  assert (set_mem (mem s) s = s) as -> by (by destruct s).
  apply IH; [done | lia | done].
Qed.

(** X14. With healthy backends of equal weight only two of them work.  On
    a pool of at least two nodes, all active with the same weight, 1 or
    more (the pool [main] builds is one), while every forwarding succeeds
    and every probe is answered: a request is served by the root and leaves
    the first two nodes swapped, the next request is served by the other of
    the two and restores the pool, and a health check changes nothing.  So
    requests alternate between the first two backends, and a third one
    never gets a request. *)
Theorem healthy_pool_uses_two_backends (backend : nat -> string -> bool)
    (probe : string -> bool) (w : Qc) (s : state) (n0 n1 : Node) :
  wf s -> NoDup (nodes s) -> (len s < 2 ^ 63)%N ->
  1 <= w -> uniform w s ->
  cell s 0 = Some n0 -> cell s 1 = Some n1 ->
  (forall u, backend 0%nat u = true) -> (forall u, probe u = true) ->
  exists s1,
    handle backend fresh s =
      Done (Run s1 [Forward (URL n0) true; CallHeapify 0 true] 1) /\
    handle backend fresh s1 =
      Done (Run s [Forward (URL n1) true; CallHeapify 0 true] 1) /\
    (forall k, (2 <= k)%N -> cell s1 k = cell s k) /\
    HealthCheck probe s = Done s /\ HealthCheck probe s1 = Done s1.
Proof.
  intros W Hnd Hlen Hw Hu H0 H1 Hb Hpr.
  pose proof (cell_lt _ _ _ H1) as Hl1.
  assert (0 < w) as Hw0 by (eapply Qclt_le_trans; [|exact Hw]; done).
  destruct (uniform_root_repair w s W Hnd Hlen ltac:(lia) Hw0 Hu)
    as (s1 & Esw & E1 & W1 & Hnd1 & L1 & Hu1).
  destruct (uniform_root_repair w s1 W1 Hnd1) as (s2 & Esw2 & E2 & _);
    [lia | lia | done | done |].
  rewrite (Swap_Swap _ _ _ _ Esw) in Esw2. injection Esw2 as <-.
  destruct (cell_Swap _ _ _ _ Esw ltac:(lia)) as (S0 & S1 & Sk).
  assert (forall s' n, wf s' -> cell s' 0 = Some n ->
            exists p, nodes s' !! 0%nat = Some p /\ p ≠ nil_ptr /\ mem s' !! p = Some n)
    as Hroot.
  { intros s' n [_ Hnil] Hn. apply cell_Some in Hn. destruct Hn as (p & Hp & Hn).
    exists p. split; [exact Hp|]. split; [|done].
    intros ->. apply Hnil. by eapply elem_of_dom_2. }
  assert (forall s', uniform w s' -> forall k n, cell s' k = Some n ->
            Active n = true /\ ~ weight n < 1 /\ probe (URL n) = true) as Hhealthy.
  { intros s' Hu' k n Hn. destruct (Hu' _ _ Hn) as [-> ->].
    split; [done|]. split; [by apply Qcle_not_lt | apply Hpr]. }
  exists s1. split; [|split; [|split; [|split]]].
  - destruct (Hroot s n0 W H0) as (p & Hp & Hnil & Hc).
    by apply (handle_ok backend s s1 p n0).
  - assert (cell s1 0 = Some n1) as H0' by (by rewrite S0).
    destruct (Hroot s1 n1 W1 H0') as (p & Hp & Hnil & Hc).
    by apply (handle_ok backend s1 s p n1).
  - intros k Hk. apply Sk; lia.
  - apply HealthCheck_loop_healthy; [done | unfold len; lia | by apply Hhealthy].
  - apply HealthCheck_loop_healthy; [done | unfold len; lia | by apply Hhealthy].
Qed.

Lemma healthy_pool_uses_two_backends_witness :
  exists s1,
    handle (fun _ _ => true) fresh pool3 =
      Done (Run s1 [Forward "http://a" true; CallHeapify 0 true] 1) /\
    handle (fun _ _ => true) fresh s1 =
      Done (Run pool3 [Forward "http://b" true; CallHeapify 0 true] 1).
Proof.
  destruct (healthy_pool_uses_two_backends (fun _ _ => true) (fun _ => true) 1 pool3
              (mkNode "http://a" true 1) (mkNode "http://b" true 1))
    as (s1 & E1 & E2 & _).
  - compute_done.
  - compute_done.
  - by vm_compute.
  - apply Qcle_refl.
  - intros i n Hn. pose proof (cell_lt _ _ _ Hn) as Hi.
    unfold len in Hi. simpl in Hi.
    assert (i = 0 \/ i = 1 \/ i = 2)%N as [-> | [-> | ->]] by lia;
      vm_compute in Hn; by injection Hn as <-.
  - reflexivity.
  - reflexivity.
  - reflexivity.
  - reflexivity.
  - exists s1. split; [exact E1 | exact E2].
Defined.
